(** * The Interpolator of wavefile (lib/resampler/interpolator.js)

    A shallow embedding of the [Interpolator] class and of the window and
    clip functions that follow it in the source file.

    Number model.  A JavaScript number is modelled by a real number
    computed exactly (no rounding); the two values a number-typed
    expression of this file can take besides a real, [NaN] and
    [undefined], are modelled by [None]:

    - sample indices ([Math.floor], [Math.round] results, the arguments
      and results of the clip functions) are integers, [Z]; an index
      expression that is [NaN] in JavaScript (a remainder by zero) is
      [None : option Z];
    - sample values and interpolated values are [number := option R],
      where [None] stands for [undefined] (a read outside the array) and
      for [NaN] (any arithmetic on it).

    Divisions whose divisor is zero in the constructor ([scaleTo = 0])
    are outside the model: the statements that depend on the value of
    the scale factor assume [1 <= scaleTo].

    Rounding.  Which sample is read depends on [Math.floor] or
    [Math.round] of the source coordinate, and there the rounding of
    the division and of the product matters.  The statements about
    the index that is read are therefore made on the coordinate as the
    code computes it: on binary64 values for closed examples
    ([scaleFactor64], [linear_index64], [point_index64]), and for every
    rounding function with the properties of rounding to nearest
    ([rounds_to_nearest], [constructor_rounded], [point_rounded]). *)

From Stdlib Require Import Reals ZArith List String Bool Lia Lra.
From Stdlib Require SpecFloat.
From Equations.Prop Require Import Equations Logic.
Import ListNotations.

Local Open Scope Z_scope.
Local Open Scope R_scope.

(** ** Numbers *)

Definition number : Type := option R.

(** Arithmetic on numbers: [NaN]/[undefined] operands give [NaN]. *)
Definition num_lift2 (f : R -> R -> R) (a b : number) : number :=
  match a, b with
  | Some x, Some y => Some (f x y)
  | _, _ => None
  end.

Definition num_add : number -> number -> number := num_lift2 Rplus.
Definition num_sub : number -> number -> number := num_lift2 Rminus.
Definition num_mul : number -> number -> number := num_lift2 Rmult.
Definition num_div : number -> number -> number := num_lift2 Rdiv.

(** [Math.floor] and [Math.round] (ties go up: [Math.round(2.5) = 3],
    [Math.round(-2.5) = -2]). *)
Definition Math_floor (x : R) : Z := Zfloor x.
Definition Math_round (x : R) : Z := Zfloor (x + 1 / 2).

(** [samples[i]]: the element when [i] is an index of the array,
    [undefined] otherwise (also when [i] is [NaN]). *)
Definition sample_at (samples : list R) (i : option Z) : number :=
  match i with
  | Some z => if (z <? 0)%Z then None else nth_error samples (Z.to_nat z)
  | None => None
  end.

(** ** Clip functions *)

(** [Math.max(0, Math.min(t, n - 1))] *)
Definition clipClamp_ (t n : Z) : option Z :=
  Some (Z.max 0 (Z.min t (n - 1))).

(** [t = t % n; if (t < 0) { t += n; } return t;]
    The remainder [%] takes the sign of the dividend ([Z.rem]); for
    [n = 0] it is [NaN], [NaN < 0] is false and [NaN] is returned. *)
Definition clipPeriodic_ (t n : Z) : option Z :=
  if (n =? 0)%Z then None
  else
    let t1 := Z.rem t n in
    Some (if (t1 <? 0)%Z then (t1 + n)%Z else t1).

(** [period = 2 * (n - 1); t = clipPeriodic_(t, period);
     if (t > n - 1) { t = period - t; } return t;]
    [NaN > n - 1] is false, so a [NaN] from [clipPeriodic_] is returned. *)
Definition clipMirror_ (t n : Z) : option Z :=
  let period := (2 * (n - 1))%Z in
  match clipPeriodic_ t period with
  | Some t1 => Some (if (t1 >? n - 1)%Z then (period - t1)%Z else t1)
  | None => None
  end.

(** ** Sinc and window functions *)

(** [if (x === 0) return 1; return Math.sin(Math.PI * x) / (Math.PI * x);] *)
Definition sinc_ (x : R) : R :=
  if Req_dec_T x 0 then 1 else sin (PI * x) / (PI * x).

(** [Math.exp(-x * x)] *)
Definition gaussianWindow_ (x : R) : number := Some (exp (- x * x)).

(** [function(x) { return sinc_(x) * window(x); }] *)
Definition sincKernel_ (window : R -> number) : R -> number :=
  fun x => num_mul (Some (sinc_ x)) (window x).

(** [function(x) { return sinc_(x / size); }]
    [size] is [details.lanczosFilterSize]: when it is absent or zero,
    [x / size] is [NaN] or infinite and [sinc_] of it is [NaN]. *)
Definition lanczosWindow_ (size : option Z) : R -> number :=
  fun x =>
    match size with
    | Some s => if (s =? 0)%Z then None else Some (sinc_ (x / IZR s))
    | None => None
    end.

(** ** The options object [details] *)

Module details.
Record t : Type := mk {
  method : option string;
  clip : option string;
  tension : option R;
  sincFilterSize : option Z;
  sincWindow : option (R -> number);
  lanczosFilterSize : option Z
}.

(** The same options with another [method]. *)
Definition set_method (m : option string) (d : t) : t :=
  mk m (clip d) (tension d) (sincFilterSize d) (sincWindow d)
     (lanczosFilterSize d).
End details.

(** [details.f === 'name'] for a string-valued option *)
Definition is_str (o : option string) (s : string) : bool :=
  match o with
  | Some s' => String.eqb s' s
  | None => false
  end.

(** [x || dflt] on an optional integer: absent and [0] are falsy. *)
Definition or_default_Z (o : option Z) (dflt : Z) : Z :=
  match o with
  | Some z => if (z =? 0)%Z then dflt else z
  | None => dflt
  end.

(** [x || dflt] on an optional real. *)
Definition or_default_R (o : option R) (dflt : R) : R :=
  match o with
  | Some r => if Req_dec_T r 0 then dflt else r
  | None => dflt
  end.

(** [w || dflt] on an optional function (a function is truthy). *)
Definition or_default_fn (o : option (R -> number)) (dflt : R -> number)
  : R -> number :=
  match o with
  | Some w => w
  | None => dflt
  end.

(** ** The Interpolator object *)

(** The method stored in [this.interpolate]. *)
Inductive method_ref : Type := Mpoint | Mlinear | Mcubic | Msinc.

(** The fields of an [Interpolator].  [sincFilterSize] (no trailing
    underscore) is the property the constructor assigns for
    [method === 'lanczos']; it is absent otherwise. *)
Record Interpolator : Type := mkInterpolator {
  length_ : Z;
  scaleFactor_ : R;
  interpolate : method_ref;
  clip_ : Z -> Z -> option Z;
  tangentFactor_ : R;
  sincFilterSize_ : Z;
  kernel_ : R -> number;
  sincFilterSize : option Z
}.

(** [constructor(scaleFrom, scaleTo, details)] *)
Definition constructor (scaleFrom scaleTo : Z) (d : details.t) : Interpolator :=
  let periodic := is_str (details.clip d) "periodic" in
  let lanczos := is_str (details.method d) "lanczos" in
  {| length_ := scaleFrom;
     scaleFactor_ :=
       if periodic then IZR scaleFrom / IZR scaleTo
       else (IZR scaleFrom - 1) / IZR scaleTo;
     interpolate :=
       if is_str (details.method d) "point" then Mpoint
       else if is_str (details.method d) "linear" then Mlinear
       else if is_str (details.method d) "cubic" then Mcubic
       else Msinc;
     clip_ :=
       if periodic then clipPeriodic_
       else if is_str (details.clip d) "mirror" then clipMirror_
       else clipClamp_;
     tangentFactor_ :=
       1 - Rmax 0 (Rmin 1 (or_default_R (details.tension d) 0));
     sincFilterSize_ := or_default_Z (details.sincFilterSize d) 1;
     kernel_ :=
       if lanczos then sincKernel_ (lanczosWindow_ (details.lanczosFilterSize d))
       else sincKernel_ (or_default_fn (details.sincWindow d) gaussianWindow_);
     sincFilterSize :=
       if lanczos then details.lanczosFilterSize d else None |}.

(** ** Methods *)

(** [getClippedInput_(t, samples)] *)
Definition getClippedInput_ (c : Interpolator) (t : Z) (samples : list R)
  : number :=
  if ((0 <=? t)%Z && (t <? length_ c)%Z)%bool
  then sample_at samples (Some t)
  else sample_at samples (clip_ c t (length_ c)).

(** [getTangent_(k, samples)] *)
Definition getTangent_ (c : Interpolator) (k : Z) (samples : list R) : number :=
  num_div
    (num_mul (Some (tangentFactor_ c))
       (num_sub (getClippedInput_ c (k + 1) samples)
                (getClippedInput_ c (k - 1) samples)))
    (Some 2).

(** [point(t, samples)] *)
Definition point (c : Interpolator) (t : R) (samples : list R) : number :=
  getClippedInput_ c (Math_round (scaleFactor_ c * t)) samples.

(** [linear(t, samples)] *)
Definition linear (c : Interpolator) (t : R) (samples : list R) : number :=
  let t := scaleFactor_ c * t in
  let k := Math_floor t in
  let t := t - IZR k in
  num_add
    (num_mul (Some (1 - t)) (getClippedInput_ c k samples))
    (num_mul (Some t) (getClippedInput_ c (k + 1) samples)).

(** [cubic(t, samples)] *)
Definition cubic (c : Interpolator) (t : R) (samples : list R) : number :=
  let t := scaleFactor_ c * t in
  let k := Math_floor t in
  let m0 := getTangent_ c k samples in
  let m1 := getTangent_ c (k + 1) samples in
  let p0 := getClippedInput_ c k samples in
  let p1 := getClippedInput_ c (k + 1) samples in
  let t := t - IZR k in
  let t2 := t * t in
  let t3 := t * t2 in
  num_add
    (num_add
       (num_add
          (num_mul (Some (2 * t3 - 3 * t2 + 1)) p0)
          (num_mul (Some (t3 - 2 * t2 + t)) m0))
       (num_mul (Some (-2 * t3 + 3 * t2)) p1))
    (num_mul (Some (t3 - t2)) m1).

(** The [for] loop of [sinc]:
    [for (let n = ref, j = ref; ref <= ref1 ? j <= ref1 : j >= ref1;
          n = ref <= ref1 ? ++j : --j)].
    [n] and [j] are equal whenever the body runs, so the loop state is
    [j] and [sum]. *)
Definition loop_cond (ref ref1 j : Z) : bool :=
  if (ref <=? ref1)%Z then (j <=? ref1)%Z else (j >=? ref1)%Z.

Definition loop_next (ref ref1 j : Z) : Z :=
  if (ref <=? ref1)%Z then (j + 1)%Z else (j - 1)%Z.

Definition loop_measure (ref ref1 j : Z) : nat :=
  Z.to_nat (if (ref <=? ref1)%Z then ref1 - j + 1 else j - ref1 + 1)%Z.

(** One run of the loop body: [sum += this.kernel_(t - n) *
    this.getClippedInput_(n, samples)]. *)
Definition sinc_term (c : Interpolator) (samples : list R) (t : R) (n : Z)
  : number :=
  num_mul (kernel_ c (t - IZR n)) (getClippedInput_ c n samples).

Equations? sinc_loop (c : Interpolator) (samples : list R) (t : R)
    (ref ref1 j : Z) (sum : number) : number
    by wf (loop_measure ref ref1 j) lt :=
  sinc_loop c samples t ref ref1 j sum with inspect (loop_cond ref ref1 j) := {
    | exist _ true Hc =>
        sinc_loop c samples t ref ref1 (loop_next ref ref1 j)
          (num_add sum (sinc_term c samples t j));
    | exist _ false Hc => sum }.
Proof.
  unfold loop_measure, loop_next, loop_cond in *.
  destruct (ref <=? ref1)%Z; lia.
Qed.

(** [sinc(t, samples)] *)
Definition sinc (c : Interpolator) (t : R) (samples : list R) : number :=
  let t := scaleFactor_ c * t in
  let k := Math_floor t in
  let ref := (k - sincFilterSize_ c + 1)%Z in
  let ref1 := (k + sincFilterSize_ c)%Z in
  sinc_loop c samples t ref ref1 ref (Some 0).

(** The call [this.interpolate(t, samples)]. *)
Definition evaluate (c : Interpolator) (t : R) (samples : list R) : number :=
  match interpolate c with
  | Mpoint => point c t samples
  | Mlinear => linear c t samples
  | Mcubic => cubic c t samples
  | Msinc => sinc c t samples
  end.

(** ** Vocabulary of the specification *)

(** The integers [lo, lo+1, ...], [len] of them. *)
Fixpoint int_seq (lo : Z) (len : nat) : list Z :=
  match len with
  | O => []
  | S len' => lo :: int_seq (lo + 1) len'
  end.

(** Every integer [n] with [lo <= n <= hi], in increasing order. *)
Definition int_range (lo hi : Z) : list Z :=
  int_seq lo (Z.to_nat (hi - lo + 1)).

(** The sum of a list of numbers, accumulated from [0] left to right. *)
Definition num_sum (l : list number) : number :=
  fold_left num_add l (Some 0).

(** The windowed sum of the specification for a filter size: with
    [u = scaleFactor * t] and [k = floor(u)], the sum over every integer
    [n] of [[k - filterSize + 1, k + filterSize]] of
    [kernel(u - n) * fetch(n)]. *)
Definition windowed_sum (c : Interpolator) (filterSize : Z) (t : R)
    (samples : list R) : number :=
  let u := scaleFactor_ c * t in
  let k := Math_floor u in
  num_sum
    (map (fun n : Z =>
            num_mul (kernel_ c (u - IZR n)) (getClippedInput_ c n samples))
       (int_range (k - filterSize + 1) (k + filterSize))).

(** The cubic Hermite basis polynomials. *)
Definition hermite_h00 (f : R) : R := 2 * f ^ 3 - 3 * f ^ 2 + 1.
Definition hermite_h10 (f : R) : R := f ^ 3 - 2 * f ^ 2 + f.
Definition hermite_h01 (f : R) : R := - 2 * f ^ 3 + 3 * f ^ 2.
Definition hermite_h11 (f : R) : R := f ^ 3 - f ^ 2.

(** [r] is a valid index of an array of length [n]. *)
Definition valid_index (n : Z) (r : option Z) : Prop :=
  exists z, r = Some z /\ (0 <= z < n)%Z.

(** Some option objects used in examples. *)
Definition with_method (m : string) : details.t :=
  details.mk (Some m) None None None None None.

Definition with_method_clip (m c : string) : details.t :=
  details.mk (Some m) (Some c) None None None None.

Definition lanczos_details (size : Z) : details.t :=
  details.mk (Some "lanczos"%string) None None None None (Some size).

Definition sinc_details (size : Z) : details.t :=
  details.mk (Some "sinc"%string) None None (Some size) None None.

(** The integers [hi, hi-1, ...], [len] of them. *)
Fixpoint int_seq_down (hi : Z) (len : nat) : list Z :=
  match len with
  | O => []
  | S len' => hi :: int_seq_down (hi - 1) len'
  end.

(** Every fetch through [getClippedInput_] yields one of the samples. *)
Definition fetch_defined (c : Interpolator) (samples : list R) : Prop :=
  forall n : Z,
    exists p : R, getClippedInput_ c n samples = Some p /\ In p samples.

(** The mapper chosen for the options can map every index of an array
    of length [n]: the array is not empty, and has two elements at
    least when the mapper is [clipMirror_]. *)
Definition mappable (n : Z) (d : details.t) : Prop :=
  (1 <= n)%Z /\ ((2 <= n)%Z \/ details.clip d <> Some "mirror"%string).

Definition with_clip (c : string) : details.t :=
  details.mk None (Some c) None None None None.

Definition with_method_tension (m : string) (x : R) : details.t :=
  details.mk (Some m) None (Some x) None None None.

(** ** The source coordinate in binary64 *)

(** An IEEE 754 binary64 value: sign, mantissa and exponent. *)
Definition f64 : Type := SpecFloat.spec_float.

(** The double of an integer (exact up to [2^53]). *)
Definition f64_of_Z (z : Z) : f64 := SpecFloat.binary_normalize 53 1024 z 0 false.

Definition f64_sub : f64 -> f64 -> f64 := SpecFloat.SFsub 53 1024.
Definition f64_mul : f64 -> f64 -> f64 := SpecFloat.SFmul 53 1024.
Definition f64_div : f64 -> f64 -> f64 := SpecFloat.SFdiv 53 1024.
Definition f64_ltb : f64 -> f64 -> bool := SpecFloat.SFltb.
Definition f64_leb : f64 -> f64 -> bool := SpecFloat.SFleb.

(** The integer [m * 2^e] rounded down, and rounded to the nearest
    integer with ties going up. *)
Definition floor_scaled (v e : Z) : Z :=
  if (0 <=? e)%Z then (v * 2 ^ e)%Z else (v / 2 ^ (- e))%Z.

Definition round_scaled (v e : Z) : Z :=
  if (0 <=? e)%Z then (v * 2 ^ e)%Z
  else ((2 * v + 2 ^ (- e)) / 2 ^ (- e + 1))%Z.

(** [Math.floor] and [Math.round] of a double; [None] for [NaN] and the
    infinities. *)
Definition Math_floor64 (x : f64) : option Z :=
  match x with
  | SpecFloat.S754_zero _ => Some 0%Z
  | SpecFloat.S754_finite s m e =>
      Some (floor_scaled (if s then Z.neg m else Z.pos m) e)
  | _ => None
  end.

Definition Math_round64 (x : f64) : option Z :=
  match x with
  | SpecFloat.S754_zero _ => Some 0%Z
  | SpecFloat.S754_finite s m e =>
      Some (round_scaled (if s then Z.neg m else Z.pos m) e)
  | _ => None
  end.

(** [(scaleFrom - 1) / scaleTo], or [scaleFrom / scaleTo] for
    [clip === 'periodic'], as the constructor computes it. *)
Definition scaleFactor64 (scaleFrom scaleTo : Z) (periodic : bool) : f64 :=
  if periodic then f64_div (f64_of_Z scaleFrom) (f64_of_Z scaleTo)
  else f64_div (f64_sub (f64_of_Z scaleFrom) (f64_of_Z 1)) (f64_of_Z scaleTo).

(** [Math.floor(this.scaleFactor_ * t)] of [linear], [cubic] and [sinc],
    and [Math.round(this.scaleFactor_ * t)] of [point]. *)
Definition linear_index64 (scaleFactor t : f64) : option Z :=
  Math_floor64 (f64_mul scaleFactor t).

Definition point_index64 (scaleFactor t : f64) : option Z :=
  Math_round64 (f64_mul scaleFactor t).

(** ** The source coordinate under any rounding to nearest *)

(** [2^-53], the relative error of one rounding. *)
Definition eps64 : R := / 9007199254740992.

(** What is used of the rounding [fl] of a real to the nearest double:
    it is monotone, it fixes the integers up to [2^53], and on
    [[2^-60, 2^200]] its relative error is at most [2^-53]. *)
Definition rounds_to_nearest (fl : R -> R) : Prop :=
  (forall x y : R, x <= y -> fl x <= fl y) /\
  (forall z : Z, (Z.abs z <= 9007199254740992)%Z -> fl (IZR z) = IZR z) /\
  (forall x : R,
      / 1152921504606846976 <= x <=
      1606938044258990275541962092341162602522202993782792835301376 ->
      x * (1 - eps64) <= fl x <= x * (1 + eps64)).

(** The object of [constructor] with the division that gives
    [scaleFactor_] rounded ([scaleFrom - 1] is exact). *)
Definition constructor_rounded (fl : R -> R) (scaleFrom scaleTo : Z)
    (d : details.t) : Interpolator :=
  let c := constructor scaleFrom scaleTo d in
  {| length_ := length_ c;
     scaleFactor_ := fl (scaleFactor_ c);
     interpolate := interpolate c;
     clip_ := clip_ c;
     tangentFactor_ := tangentFactor_ c;
     sincFilterSize_ := sincFilterSize_ c;
     kernel_ := kernel_ c;
     sincFilterSize := sincFilterSize c |}.

(** [Math.round(this.scaleFactor_ * t)] and
    [Math.floor(this.scaleFactor_ * t)] with the product rounded. *)
Definition point_index_rounded (fl : R -> R) (c : Interpolator) (t : R) : Z :=
  Math_round (fl (scaleFactor_ c * t)).

Definition linear_index_rounded (fl : R -> R) (c : Interpolator) (t : R) : Z :=
  Math_floor (fl (scaleFactor_ c * t)).

(** [point(t, samples)] with the product rounded. *)
Definition point_rounded (fl : R -> R) (c : Interpolator) (t : R)
    (samples : list R) : number :=
  getClippedInput_ c (point_index_rounded fl c t) samples.

(** * Properties *)

(** ** Boundary mappers *)

Lemma clipClamp_valid (t n : Z) :
  (1 <= n)%Z -> valid_index n (clipClamp_ t n).
Proof.
  intros Hn. exists (Z.max 0 (Z.min t (n - 1))). split; [reflexivity | lia].
Qed.

Lemma rem_shift_range (t n : Z) :
  (1 <= n)%Z ->
  (0 <= (if (Z.rem t n <? 0)%Z then Z.rem t n + n else Z.rem t n) < n)%Z.
Proof.
  intros Hn.
  assert (Habs : (Z.abs (Z.rem t n) < Z.abs n)%Z) by (apply Z.rem_bound_abs; lia).
  destruct (Z.ltb_spec (Z.rem t n) 0); lia.
Qed.

Lemma clipPeriodic_valid (t n : Z) :
  (1 <= n)%Z -> valid_index n (clipPeriodic_ t n).
Proof.
  intros Hn. unfold clipPeriodic_.
  destruct (Z.eqb_spec n 0) as [E | _]; [lia |].
  eexists. split; [reflexivity |]. now apply rem_shift_range.
Qed.

Lemma clipMirror_valid (t n : Z) :
  (2 <= n)%Z -> valid_index n (clipMirror_ t n).
Proof.
  intros Hn. unfold clipMirror_, clipPeriodic_.
  destruct (Z.eqb_spec (2 * (n - 1)) 0) as [E | _]; [lia |].
  eexists. split; [reflexivity |].
  pose proof (rem_shift_range t (2 * (n - 1)) ltac:(lia)) as Hr.
  cbv zeta.
  destruct (Z.gtb_spec
              (if (Z.rem t (2 * (n - 1)) <? 0)%Z
               then (Z.rem t (2 * (n - 1)) + 2 * (n - 1))%Z
               else Z.rem t (2 * (n - 1))) (n - 1)); lia.
Qed.

Lemma clipMirror_single (t : Z) : clipMirror_ t 1 = None.
Proof. reflexivity. Qed.

(** C4.  The boundary mappers give the example values of the
    specification: clamp(-1,5) = 0, clamp(5,5) = 4, clamp(2,5) = 2;
    periodic(-1,5) = 4, periodic(5,5) = 0, periodic(7,5) = 2;
    mirror(-1,5) = 1, mirror(8,5) = 0, mirror(5,5) = 3. *)
Theorem clip_examples :
  clipClamp_ (-1) 5 = Some 0%Z /\
  clipClamp_ 5 5 = Some 4%Z /\
  clipClamp_ 2 5 = Some 2%Z /\
  clipPeriodic_ (-1) 5 = Some 4%Z /\
  clipPeriodic_ 5 5 = Some 0%Z /\
  clipPeriodic_ 7 5 = Some 2%Z /\
  clipMirror_ (-1) 5 = Some 1%Z /\
  clipMirror_ 8 5 = Some 0%Z /\
  clipMirror_ 5 5 = Some 3%Z.
Proof. repeat split; vm_compute; reflexivity. Qed.

Lemma Math_floor_eq (z : Z) (x : R) :
  IZR z <= x < IZR z + 1 -> Math_floor x = z.
Proof. apply Zfloor_eq. Qed.

Lemma is_str_true (o : option string) (s : string) :
  is_str o s = true <-> o = Some s.
Proof.
  destruct o as [s' |]; simpl.
  - rewrite String.eqb_eq. split; congruence.
  - split; discriminate.
Qed.

Lemma is_str_false (o : option string) (s : string) :
  is_str o s = false <-> o <> Some s.
Proof.
  rewrite <- is_str_true. destruct (is_str o s); split; congruence.
Qed.

(** C2.  On a one-sample array, [clipMirror_] has the period [0]: the
    remainder by it is [NaN] and [NaN] is returned as the index, where
    [clipClamp_] and [clipPeriodic_] return [0].  A linear interpolation
    over the array [[7]] that mirrors at the boundary reads
    [samples[NaN]] and returns [NaN]; with the clamp mapper it
    returns [7]. *)
Theorem mirror_single_sample_not_an_index :
  clipMirror_ 1 1 = None /\
  (forall t : Z, clipMirror_ t 1 = None) /\
  ~ valid_index 1 (clipMirror_ 1 1) /\
  clipClamp_ 1 1 = Some 0%Z /\
  clipPeriodic_ 1 1 = Some 0%Z /\
  evaluate (constructor 1 4 (with_method_clip "linear" "mirror")) 0 [7] = None /\
  evaluate (constructor 1 4 (with_method_clip "linear" "clamp")) 0 [7] = Some 7.
Proof.
  assert (Hk : Math_floor ((1 - 1) / 4 * 0) = 0%Z).
  { apply Math_floor_eq. lra. }
  repeat split; try reflexivity.
  - intros [z [Hz _]]. discriminate Hz.
  - unfold evaluate, linear, getClippedInput_. cbn -[Math_floor IZR Rdiv Rmult Rminus].
    rewrite Hk. reflexivity.
  - unfold evaluate, linear, getClippedInput_. cbn -[Math_floor IZR Rdiv Rmult Rminus].
    rewrite Hk. cbn -[IZR Rdiv Rmult Rminus Rplus]. f_equal. lra.
Qed.

(** ** The raw sinc function *)

Lemma sinc_at_zero : sinc_ 0 = 1.
Proof.
  unfold sinc_. destruct (Req_dec_T 0 0) as [_ | H]; [reflexivity | now destruct H].
Qed.

Lemma sinc_away_from_zero (x : R) :
  x <> 0 -> sinc_ x = sin (PI * x) / (PI * x).
Proof.
  intros Hx. unfold sinc_.
  destruct (Req_dec_T x 0) as [E | _]; [contradiction | reflexivity].
Qed.

(** C9.  [sinc_] is even, and [sinc_(0)] is [1]: the branch for
    [x === 0] returns before the division by [Math.PI * x]. *)
Theorem sinc_even_and_one_at_zero :
  (forall x : R, sinc_ x = sinc_ (- x)) /\ sinc_ 0 = 1.
Proof.
  split.
  - intros x. unfold sinc_.
    destruct (Req_dec_T x 0) as [Hx | Hx]; destruct (Req_dec_T (- x) 0) as [Hm | Hm].
    + reflexivity.
    + exfalso. apply Hm. lra.
    + exfalso. apply Hx. lra.
    + replace (PI * - x) with (- (PI * x)) by ring.
      rewrite sin_neg. field. split; [exact Hx | exact PI_neq0].
  - exact sinc_at_zero.
Qed.

(** ** The constructor *)

Lemma clipPeriodic_not_clamp : clipPeriodic_ <> clipClamp_.
Proof.
  intros E. apply (f_equal (fun f => f 5%Z 5%Z)) in E. discriminate E.
Qed.

Lemma clipPeriodic_not_mirror : clipPeriodic_ <> clipMirror_.
Proof.
  intros E. apply (f_equal (fun f => f 5%Z 5%Z)) in E. discriminate E.
Qed.

Lemma clipMirror_not_clamp : clipMirror_ <> clipClamp_.
Proof.
  intros E. apply (f_equal (fun f => f 5%Z 5%Z)) in E. discriminate E.
Qed.

(** The mapper stored in [clip_] follows the [clip] option. *)
Lemma constructor_clip (scaleFrom scaleTo : Z) (d : details.t) :
  let c := constructor scaleFrom scaleTo d in
  (details.clip d = Some "periodic"%string -> clip_ c = clipPeriodic_) /\
  (details.clip d = Some "mirror"%string -> clip_ c = clipMirror_) /\
  (details.clip d <> Some "periodic"%string ->
   details.clip d <> Some "mirror"%string -> clip_ c = clipClamp_).
Proof.
  cbn. repeat split.
  - intros ->. reflexivity.
  - intros ->. reflexivity.
  - intros Hp Hm. apply is_str_false in Hp, Hm. now rewrite Hp, Hm.
Qed.

(** An object whose mapper is [clipClamp_] was not built for
    [clip = 'periodic']. *)
Lemma clamp_policy_not_periodic (scaleFrom scaleTo : Z) (d : details.t) :
  clip_ (constructor scaleFrom scaleTo d) = clipClamp_ ->
  is_str (details.clip d) "periodic" = false.
Proof.
  cbn. destruct (is_str (details.clip d) "periodic"); [| reflexivity].
  intros E. exfalso. now apply clipPeriodic_not_clamp.
Qed.

(** C5.  For [sourceLength >= 1] and [targetLength >= 1], the scale
    factor is [(sourceLength - 1) / targetLength] when the boundary
    mapper resolves to clamp or mirror, and [sourceLength / targetLength]
    when it resolves to periodic. *)
Theorem scaleFactor_by_policy (scaleFrom scaleTo : Z) (d : details.t) :
  (1 <= scaleFrom)%Z -> (1 <= scaleTo)%Z ->
  let c := constructor scaleFrom scaleTo d in
  (clip_ c = clipClamp_ \/ clip_ c = clipMirror_ ->
   scaleFactor_ c = (IZR scaleFrom - 1) / IZR scaleTo) /\
  (clip_ c = clipPeriodic_ ->
   scaleFactor_ c = IZR scaleFrom / IZR scaleTo).
Proof.
  intros _ _. cbn.
  destruct (is_str (details.clip d) "periodic").
  - split; [| reflexivity].
    intros [E | E]; exfalso.
    + now apply clipPeriodic_not_clamp.
    + now apply clipPeriodic_not_mirror.
  - split; [reflexivity |].
    destruct (is_str (details.clip d) "mirror"); intros E; exfalso.
    + now apply clipPeriodic_not_mirror.
    + now apply clipPeriodic_not_clamp.
Qed.

Lemma scaleFactor_by_policy_witness :
  scaleFactor_ (constructor 5 10 (with_method_clip "linear" "periodic")) = 5 / 10 /\
  scaleFactor_ (constructor 5 10 (with_method_clip "linear" "mirror")) = (5 - 1) / 10 /\
  scaleFactor_ (constructor 5 10 (with_method_clip "linear" "clamp")) = (5 - 1) / 10.
Proof.
  split; [| split].
  - apply (scaleFactor_by_policy 5 10 (with_method_clip "linear" "periodic"));
      [lia | lia | reflexivity].
  - apply (scaleFactor_by_policy 5 10 (with_method_clip "linear" "mirror"));
      [lia | lia | right; reflexivity].
  - apply (scaleFactor_by_policy 5 10 (with_method_clip "linear" "clamp"));
      [lia | lia | left; reflexivity].
Defined.

(** C6.  When [method] is none of 'point', 'linear', 'cubic', 'lanczos'
    (or is absent) and [clip] is neither 'periodic' nor 'mirror', the
    constructor selects [sinc], the kernel [sincKernel_] of the given
    window or else of the Gaussian window, the filter size given or
    else [1], and the clamp mapper; the object built, and so every
    value it interpolates, is the one built for [method = 'sinc']. *)
Theorem unknown_method_falls_back_to_sinc
    (scaleFrom scaleTo : Z) (d : details.t) :
  details.method d <> Some "point"%string ->
  details.method d <> Some "linear"%string ->
  details.method d <> Some "cubic"%string ->
  details.method d <> Some "lanczos"%string ->
  details.clip d <> Some "periodic"%string ->
  details.clip d <> Some "mirror"%string ->
  let c := constructor scaleFrom scaleTo d in
  let c_sinc :=
    constructor scaleFrom scaleTo (details.set_method (Some "sinc"%string) d) in
  interpolate c = Msinc /\
  clip_ c = clipClamp_ /\
  kernel_ c = sincKernel_ (or_default_fn (details.sincWindow d) gaussianWindow_) /\
  sincFilterSize_ c = or_default_Z (details.sincFilterSize d) 1 /\
  (details.sincWindow d = None -> kernel_ c = sincKernel_ gaussianWindow_) /\
  (details.sincFilterSize d = None -> sincFilterSize_ c = 1%Z) /\
  c = c_sinc /\
  (forall (t : R) (samples : list R),
      evaluate c t samples = evaluate c_sinc t samples /\
      evaluate c_sinc t samples = sinc c_sinc t samples).
Proof.
  intros Hp Hl Hc Hz Hper Hmir.
  apply is_str_false in Hp, Hl, Hc, Hz, Hper, Hmir.
  assert (E : constructor scaleFrom scaleTo d =
              constructor scaleFrom scaleTo
                (details.set_method (Some "sinc"%string) d)).
  { unfold constructor. cbn. rewrite Hp, Hl, Hc, Hz. reflexivity. }
  cbv zeta. rewrite <- E.
  unfold constructor, evaluate. cbn.
  rewrite Hp, Hl, Hc, Hz, Hper, Hmir.
  repeat split.
  - intros ->. reflexivity.
  - intros ->. reflexivity.
Qed.

Lemma unknown_method_falls_back_to_sinc_witness :
  let c := constructor 5 10 (with_method "unknown") in
  let c_sinc := constructor 5 10 (with_method "sinc") in
  interpolate c = Msinc /\
  clip_ c = clipClamp_ /\
  kernel_ c = sincKernel_ gaussianWindow_ /\
  sincFilterSize_ c = 1%Z /\
  (forall (t : R) (samples : list R),
      evaluate c t samples = evaluate c_sinc t samples).
Proof.
  destruct (unknown_method_falls_back_to_sinc 5 10 (with_method "unknown"))
    as (Hi & Hc & _ & _ & Hk & Hf & _ & He); try (cbn; discriminate).
  split; [| split; [| split; [| split]]].
  - exact Hi.
  - exact Hc.
  - apply Hk. reflexivity.
  - apply Hf. reflexivity.
  - intros t samples. apply He.
Defined.

(** ** Point and linear interpolation *)

(** A fetch at an index inside [[0, length_)] reads the array directly. *)
Lemma getClippedInput_in_range (c : Interpolator) (k : Z) (samples : list R) :
  (0 <= k < length_ c)%Z ->
  ((0 <=? k)%Z && (k <? length_ c)%Z)%bool = true /\
  getClippedInput_ c k samples = sample_at samples (Some k).
Proof.
  intros [H0 H1]. unfold getClippedInput_.
  destruct (Z.leb_spec 0 k); [| lia].
  destruct (Z.ltb_spec k (length_ c)); [| lia].
  split; reflexivity.
Qed.


(** The source coordinate of an output index of [[0, scaleTo)] lies in
    [[0, scaleFrom - 1)] under the clamp scale factor. *)
Lemma clamp_coordinate_range (scaleFrom scaleTo : Z) (t : R) :
  (2 <= scaleFrom)%Z -> (1 <= scaleTo)%Z -> 0 <= t < IZR scaleTo ->
  0 <= (IZR scaleFrom - 1) / IZR scaleTo * t < IZR scaleFrom - 1.
Proof.
  intros Hn Hm [Ht0 Ht1].
  apply IZR_le in Hn, Hm.
  assert (E : (IZR scaleFrom - 1) / IZR scaleTo * t =
              (IZR scaleFrom - 1) * (t / IZR scaleTo)) by (field; lra).
  assert (Q : t / IZR scaleTo * IZR scaleTo = t) by (field; lra).
  assert (Hq : 0 <= t / IZR scaleTo < 1).
  { split.
    - apply (Rmult_le_reg_r (IZR scaleTo)); [| rewrite Q]; lra.
    - apply (Rmult_lt_reg_r (IZR scaleTo)); [| rewrite Q]; lra. }
  rewrite E. split; nra.
Qed.

(** ** Cubic interpolation *)

Lemma cubic_hermite (c : Interpolator) (t : R) (samples : list R) :
  let u := scaleFactor_ c * t in
  let k := Math_floor u in
  let f := u - IZR k in
  let fetch := fun n : Z => getClippedInput_ c n samples in
  let m0 :=
    num_div (num_mul (Some (tangentFactor_ c))
               (num_sub (fetch (k + 1)%Z) (fetch (k - 1)%Z))) (Some 2) in
  let m1 :=
    num_div (num_mul (Some (tangentFactor_ c))
               (num_sub (fetch (k + 2)%Z) (fetch k))) (Some 2) in
  cubic c t samples =
  num_add
    (num_add
       (num_add (num_mul (Some (hermite_h00 f)) (fetch k))
                (num_mul (Some (hermite_h10 f)) m0))
       (num_mul (Some (hermite_h01 f)) (fetch (k + 1)%Z)))
    (num_mul (Some (hermite_h11 f)) m1).
Proof.
  intros u k f fetch m0 m1.
  unfold cubic, getTangent_. fold u. fold k. fold f.
  replace (k + 1 + 1)%Z with (k + 2)%Z by lia.
  replace (k + 1 - 1)%Z with k by lia.
  replace (2 * (f * (f * f)) - 3 * (f * f) + 1) with (hermite_h00 f)
    by (unfold hermite_h00; ring).
  replace (f * (f * f) - 2 * (f * f) + f) with (hermite_h10 f)
    by (unfold hermite_h10; ring).
  replace (-2 * (f * (f * f)) + 3 * (f * f)) with (hermite_h01 f)
    by (unfold hermite_h01; ring).
  replace (f * (f * f) - f * f) with (hermite_h11 f)
    by (unfold hermite_h11; ring).
  reflexivity.
Qed.

(** C8.  For [method = 'cubic'], with [u = scaleFactor * t],
    [k = floor(u)] and [f = u - k], the value is
    [h00(f)*fetch(k) + h10(f)*m0 + h01(f)*fetch(k+1) + h11(f)*m1], where
    [m0 = tangentFactor * (fetch(k+1) - fetch(k-1)) / 2],
    [m1 = tangentFactor * (fetch(k+2) - fetch(k)) / 2] and
    [h00 = 2f^3 - 3f^2 + 1], [h10 = f^3 - 2f^2 + f],
    [h01 = -2f^3 + 3f^2], [h11 = f^3 - f^2]. *)
Theorem cubic_is_hermite_combination
    (scaleFrom scaleTo : Z) (d : details.t) (t : R) (samples : list R) :
  details.method d = Some "cubic"%string ->
  let c := constructor scaleFrom scaleTo d in
  let u := scaleFactor_ c * t in
  let k := Math_floor u in
  let f := u - IZR k in
  let fetch := fun n : Z => getClippedInput_ c n samples in
  let m0 :=
    num_div (num_mul (Some (tangentFactor_ c))
               (num_sub (fetch (k + 1)%Z) (fetch (k - 1)%Z))) (Some 2) in
  let m1 :=
    num_div (num_mul (Some (tangentFactor_ c))
               (num_sub (fetch (k + 2)%Z) (fetch k))) (Some 2) in
  evaluate c t samples =
  num_add
    (num_add
       (num_add (num_mul (Some (2 * f ^ 3 - 3 * f ^ 2 + 1)) (fetch k))
                (num_mul (Some (f ^ 3 - 2 * f ^ 2 + f)) m0))
       (num_mul (Some (- 2 * f ^ 3 + 3 * f ^ 2)) (fetch (k + 1)%Z)))
    (num_mul (Some (f ^ 3 - f ^ 2)) m1).
Proof.
  intros Hm c u k f fetch m0 m1.
  assert (Ev : evaluate c t samples = cubic c t samples).
  { unfold evaluate, c, constructor. rewrite Hm. reflexivity. }
  rewrite Ev. apply cubic_hermite.
Qed.

Lemma cubic_is_hermite_combination_witness :
  let samples := [0; 10; 0; 10; 0] in
  let c := constructor 5 10 (with_method "cubic") in
  let u := scaleFactor_ c * 3 in
  let k := Math_floor u in
  let f := u - IZR k in
  let fetch := fun n : Z => getClippedInput_ c n samples in
  let m0 :=
    num_div (num_mul (Some (tangentFactor_ c))
               (num_sub (fetch (k + 1)%Z) (fetch (k - 1)%Z))) (Some 2) in
  let m1 :=
    num_div (num_mul (Some (tangentFactor_ c))
               (num_sub (fetch (k + 2)%Z) (fetch k))) (Some 2) in
  evaluate c 3 samples =
  num_add
    (num_add
       (num_add (num_mul (Some (2 * f ^ 3 - 3 * f ^ 2 + 1)) (fetch k))
                (num_mul (Some (f ^ 3 - 2 * f ^ 2 + f)) m0))
       (num_mul (Some (- 2 * f ^ 3 + 3 * f ^ 2)) (fetch (k + 1)%Z)))
    (num_mul (Some (f ^ 3 - f ^ 2)) m1).
Proof.
  apply (cubic_is_hermite_combination 5 10 (with_method "cubic") 3
           [0; 10; 0; 10; 0]).
  reflexivity.
Defined.

(** ** Sinc interpolation *)

Lemma sinc_loop_step (c : Interpolator) (samples : list R) (t : R)
    (ref ref1 j : Z) (sum : number) :
  sinc_loop c samples t ref ref1 j sum =
  if loop_cond ref ref1 j
  then sinc_loop c samples t ref ref1 (loop_next ref ref1 j)
         (num_add sum (sinc_term c samples t j))
  else sum.
Proof.
  rewrite sinc_loop_equation_1.
  destruct (inspect (loop_cond ref ref1 j)) as [[|] Hb];
    cbn [sinc_loop_unfold_clause_1]; rewrite Hb; reflexivity.
Qed.

(** When [ref <= ref1] the loop counts upwards and adds one term for
    each of the [len] integers from [j] to [ref1]. *)
Lemma sinc_loop_ascending (c : Interpolator) (samples : list R) (t : R)
    (ref ref1 : Z) :
  (ref <= ref1)%Z ->
  forall (len : nat) (j : Z) (sum : number),
    (j + Z.of_nat len = ref1 + 1)%Z ->
    sinc_loop c samples t ref ref1 j sum =
    fold_left (fun acc n => num_add acc (sinc_term c samples t n))
      (int_seq j len) sum.
Proof.
  intros Href. induction len as [| len IH]; intros j sum Hj;
    rewrite sinc_loop_step; unfold loop_cond, loop_next;
    destruct (Z.leb_spec ref ref1) as [_ | Hbad]; try lia.
  - destruct (Z.leb_spec j ref1); [lia | reflexivity].
  - destruct (Z.leb_spec j ref1); [| lia].
    rewrite IH by lia. reflexivity.
Qed.

Lemma fold_left_num_add_map (f : Z -> number) (l : list Z) (a : number) :
  fold_left (fun acc n => num_add acc (f n)) l a = fold_left num_add (map f l) a.
Proof.
  revert a. induction l as [| n l IH]; intros a; simpl; [reflexivity | apply IH].
Qed.

Lemma In_int_seq (n : Z) (len : nat) (lo : Z) :
  In n (int_seq lo len) <-> (lo <= n < lo + Z.of_nat len)%Z.
Proof.
  revert lo. induction len as [| len IH]; intros lo; simpl.
  - lia.
  - rewrite IH. lia.
Qed.

(** [int_range lo hi] lists exactly the integers of [[lo, hi]]. *)
Lemma In_int_range (lo hi n : Z) :
  In n (int_range lo hi) <-> (lo <= n <= hi)%Z.
Proof. unfold int_range. rewrite In_int_seq. lia. Qed.

Lemma NoDup_int_seq (len : nat) (lo : Z) : NoDup (int_seq lo len).
Proof.
  revert lo. induction len as [| len IH]; intros lo; simpl; constructor.
  - rewrite In_int_seq. lia.
  - apply IH.
Qed.

(** [sinc] on any object whose filter size is at least [1]. *)
Lemma sinc_is_sum (c : Interpolator) (t : R) (samples : list R) :
  (1 <= sincFilterSize_ c)%Z ->
  let u := scaleFactor_ c * t in
  let k := Math_floor u in
  sinc c t samples =
  num_sum
    (map (fun n : Z => num_mul (kernel_ c (u - IZR n)) (getClippedInput_ c n samples))
       (int_range (k - sincFilterSize_ c + 1) (k + sincFilterSize_ c))).
Proof.
  intros Hfs u k. unfold sinc. fold u. fold k.
  unfold int_range, num_sum.
  assert (Href : (k - sincFilterSize_ c + 1 <= k + sincFilterSize_ c)%Z) by lia.
  rewrite (sinc_loop_ascending c samples u _ _ Href
             (Z.to_nat (k + sincFilterSize_ c - (k - sincFilterSize_ c + 1) + 1)))
    by lia.
  apply fold_left_num_add_map.
Qed.

(** C7.  For [method = 'sinc'] or ['lanczos'], with [u = scaleFactor * t]
    and [k = floor(u)], the value is the sum, over every integer [n] of
    [[k - filterSize + 1, k + filterSize]], of
    [kernel(u - n) * fetch(n)], where [filterSize] is the object's
    [sincFilterSize_], [kernel(x) = sinc(x) * window(x)], and [sinc(x)]
    is [1] at [x = 0] and [sin(pi*x)/(pi*x)] otherwise. *)
Theorem sinc_is_windowed_sum
    (scaleFrom scaleTo : Z) (d : details.t) (t : R) (samples : list R) :
  details.method d = Some "sinc"%string \/
  details.method d = Some "lanczos"%string ->
  (1 <= or_default_Z (details.sincFilterSize d) 1)%Z ->
  let c := constructor scaleFrom scaleTo d in
  let filterSize := sincFilterSize_ c in
  let u := scaleFactor_ c * t in
  let k := Math_floor u in
  let window :=
    if is_str (details.method d) "lanczos"
    then lanczosWindow_ (details.lanczosFilterSize d)
    else or_default_fn (details.sincWindow d) gaussianWindow_ in
  evaluate c t samples =
  num_sum
    (map (fun n : Z => num_mul (kernel_ c (u - IZR n)) (getClippedInput_ c n samples))
       (int_range (k - filterSize + 1) (k + filterSize))) /\
  (forall n : Z,
      In n (int_range (k - filterSize + 1) (k + filterSize)) <->
      (k - filterSize + 1 <= n <= k + filterSize)%Z) /\
  NoDup (int_range (k - filterSize + 1) (k + filterSize)) /\
  (forall x : R, kernel_ c x = num_mul (Some (sinc_ x)) (window x)) /\
  sinc_ 0 = 1 /\
  (forall x : R, x <> 0 -> sinc_ x = sin (PI * x) / (PI * x)).
Proof.
  intros Hm Hfs c filterSize u k window.
  assert (Ev : evaluate c t samples = sinc c t samples).
  { unfold evaluate, c, constructor. destruct Hm as [-> | ->]; reflexivity. }
  split; [rewrite Ev; apply sinc_is_sum; exact Hfs |].
  split; [intros n; apply In_int_range |].
  split; [apply NoDup_int_seq |].
  split.
  - intros x. unfold c, constructor, window. cbn.
    destruct (is_str (details.method d) "lanczos"); reflexivity.
  - split; [exact sinc_at_zero | exact sinc_away_from_zero].
Qed.

Lemma sinc_is_windowed_sum_witness :
  let samples := [0; 10; 0; 10; 0] in
  let c := constructor 5 10 (sinc_details 2) in
  let u := scaleFactor_ c * 3 in
  let k := Math_floor u in
  evaluate c 3 samples =
  num_sum
    (map (fun n : Z => num_mul (kernel_ c (u - IZR n)) (getClippedInput_ c n samples))
       (int_range (k - 2 + 1) (k + 2))).
Proof.
  apply (sinc_is_windowed_sum 5 10 (sinc_details 2) 3 [0; 10; 0; 10; 0]).
  - left. reflexivity.
  - cbn. lia.
Defined.

(** ** The Lanczos filter size *)

(** For [method = 'lanczos'] the constructor stores
    [details.lanczosFilterSize] in the property [sincFilterSize]; the
    field [sincFilterSize_] that [sinc] reads keeps
    [details.sincFilterSize || 1]. *)
Lemma constructor_lanczos_fields (scaleFrom scaleTo : Z) (d : details.t) :
  details.method d = Some "lanczos"%string ->
  let c := constructor scaleFrom scaleTo d in
  sincFilterSize c = details.lanczosFilterSize d /\
  sincFilterSize_ c = or_default_Z (details.sincFilterSize d) 1 /\
  kernel_ c = sincKernel_ (lanczosWindow_ (details.lanczosFilterSize d)).
Proof.
  intros Hm. unfold constructor. rewrite Hm. cbn. repeat split.
Qed.

Lemma sinc_minus_half : sinc_ (- (1 / 2)) = 2 / PI.
Proof.
  pose proof PI_neq0 as Hpi.
  rewrite sinc_away_from_zero by lra.
  replace (PI * - (1 / 2)) with (- (PI / 2)) by field.
  rewrite sin_neg, sin_PI2. field. exact Hpi.
Qed.

Lemma sinc_minus_three_halves : sinc_ (- (3 / 2)) = - (2 / (3 * PI)).
Proof.
  pose proof PI_neq0 as Hpi.
  rewrite sinc_away_from_zero by lra.
  replace (PI * - (3 / 2)) with (- (3 * (PI / 2))) by field.
  rewrite sin_neg, sin_3PI2. field. exact Hpi.
Qed.

(** C1.  With [method = 'lanczos'] and [lanczosFilterSize = 3] the
    constructor leaves [sincFilterSize_] at [1]: [sinc] sums over
    [floor(u)] and [floor(u) + 1] only, not over
    [[floor(u) - 2, floor(u) + 3]].  For eight samples resampled to
    fourteen, the only non-zero sample at index 2 and [t = 1]
    ([u = 1/2]), the value is [0], where the sum over
    [[floor(u) - 2, floor(u) + 3]] is negative. *)
Theorem lanczos_filter_size_not_used :
  let c := constructor 8 14 (lanczos_details 3) in
  let samples := [0; 0; 1; 0; 0; 0; 0; 0] in
  sincFilterSize c = Some 3%Z /\
  sincFilterSize_ c = 1%Z /\
  (forall (t : R) (s : list R), evaluate c t s = windowed_sum c 1 t s) /\
  evaluate c 1 samples = Some 0 /\
  (exists v : R, windowed_sum c 3 1 samples = Some v /\ v < 0).
Proof.
  intros c samples.
  assert (Hu : scaleFactor_ c * 1 = 1 / 2).
  { change (scaleFactor_ c) with ((8 - 1) / 14). lra. }
  assert (Hk : Math_floor (scaleFactor_ c * 1) = 0%Z).
  { apply Math_floor_eq. rewrite Hu. lra. }
  assert (HK : forall x, kernel_ c x = Some (sinc_ x * sinc_ (x / 3)))
    by reflexivity.
  assert (Hf : forall n, getClippedInput_ c n samples =
                         if (n =? 2)%Z then Some 1 else Some 0).
  { intros n. unfold getClippedInput_.
    change (length_ c) with 8%Z. change (clip_ c) with clipClamp_.
    destruct (Z.leb_spec 0 n); destruct (Z.ltb_spec n 8); cbn [andb].
    - assert (Hn : (n = 0 \/ n = 1 \/ n = 2 \/ n = 3 \/
                    n = 4 \/ n = 5 \/ n = 6 \/ n = 7)%Z) by lia.
      destruct Hn as [-> | [-> | [-> | [-> | [-> | [-> | [-> | ->]]]]]]];
        reflexivity.
    - unfold clipClamp_. replace (Z.max 0 (Z.min n (8 - 1))) with 7%Z by lia.
      destruct (Z.eqb_spec n 2); [lia | reflexivity].
    - unfold clipClamp_. replace (Z.max 0 (Z.min n (8 - 1))) with 0%Z by lia.
      destruct (Z.eqb_spec n 2); [lia | reflexivity].
    - lia. }
  assert (Hs : forall (t : R) (s : list R), evaluate c t s = windowed_sum c 1 t s).
  { intros t s. replace (evaluate c t s) with (sinc c t s) by reflexivity.
    rewrite sinc_is_sum by (cbn; lia). reflexivity. }
  split; [reflexivity |]. split; [reflexivity |]. split; [exact Hs |].
  split.
  - rewrite Hs. unfold windowed_sum. rewrite Hk.
    replace (int_range (0 - 1 + 1) (0 + 1)) with [0; 1]%Z by reflexivity.
    cbn [map]. rewrite !HK, !Hf. cbn [Z.eqb Pos.eqb].
    unfold num_sum. cbn [fold_left num_add num_mul num_lift2].
    f_equal. ring.
  - unfold windowed_sum. rewrite Hk.
    replace (int_range (0 - 3 + 1) (0 + 3)) with [-2; -1; 0; 1; 2; 3]%Z
      by reflexivity.
    cbn [map]. rewrite !HK, !Hf. cbn [Z.eqb Pos.eqb].
    unfold num_sum. cbn [fold_left num_add num_mul num_lift2].
    eexists. split; [reflexivity |].
    rewrite Hu.
    replace (1 / 2 - 2) with (- (3 / 2)) by lra.
    replace (- (3 / 2) / 3) with (- (1 / 2)) by lra.
    rewrite sinc_minus_half, sinc_minus_three_halves.
    pose proof PI_RGT_0 as Hpi.
    assert (Hinv : 0 < / PI) by (apply Rinv_0_lt_compat; lra).
    match goal with
    | |- ?e < 0 => replace e with (- (4 / 3) * (/ PI * / PI)) by (field; lra)
    end.
    nra.
Qed.

(** * Further properties *)

(** ** The boundary mappers on arrays they can map *)

Lemma clipPeriodic_mod (t n : Z) :
  (1 <= n)%Z -> clipPeriodic_ t n = Some (t mod n)%Z.
Proof.
  intros Hn. unfold clipPeriodic_.
  destruct (Z.eqb_spec n 0) as [E | _]; [lia |].
  cbv zeta. f_equal.
  pose proof (Z.quot_rem' t n) as Hq.
  assert (Habs : (Z.abs (Z.rem t n) < Z.abs n)%Z) by (apply Z.rem_bound_abs; lia).
  destruct (Z.ltb_spec (Z.rem t n) 0).
  - apply (Z.mod_unique_pos t n (Z.quot t n - 1)); lia.
  - apply (Z.mod_unique_pos t n (Z.quot t n)); lia.
Qed.

Lemma clipMirror_fold (t n : Z) :
  (2 <= n)%Z ->
  clipMirror_ t n =
  Some (if (t mod (2 * (n - 1)) >? n - 1)%Z
        then (2 * (n - 1) - t mod (2 * (n - 1)))%Z
        else (t mod (2 * (n - 1)))%Z).
Proof.
  intros Hn. unfold clipMirror_. rewrite clipPeriodic_mod by lia. reflexivity.
Qed.

Lemma clipMirror_opp (t n : Z) :
  (2 <= n)%Z -> clipMirror_ (- t) n = clipMirror_ t n.
Proof.
  intros Hn. rewrite !clipMirror_fold by lia. f_equal.
  set (p := (2 * (n - 1))%Z).
  assert (Hp : (0 < p)%Z) by (unfold p; lia).
  pose proof (Z.mod_pos_bound t p Hp) as Hm.
  destruct (Z.eq_dec (t mod p) 0) as [E | E].
  - rewrite (Z.mod_opp_l_z t p) by lia. rewrite E. reflexivity.
  - rewrite (Z.mod_opp_l_nz t p) by lia.
    destruct (Z.gtb_spec (p - t mod p) (n - 1));
    destruct (Z.gtb_spec (t mod p) (n - 1)); unfold p in *; lia.
Qed.

Lemma clipMirror_shift (t n : Z) :
  (2 <= n)%Z -> clipMirror_ (t + 2 * (n - 1)) n = clipMirror_ t n.
Proof.
  intros Hn. rewrite !clipMirror_fold by lia.
  replace ((t + 2 * (n - 1)) mod (2 * (n - 1)))%Z with (t mod (2 * (n - 1)))%Z.
  - reflexivity.
  - rewrite <- (Z.mul_1_l (2 * (n - 1))) at 2. rewrite Z.mod_add by lia.
    reflexivity.
Qed.

Lemma clipMirror_id (t n : Z) :
  (2 <= n)%Z -> (0 <= t < n)%Z -> clipMirror_ t n = Some t.
Proof.
  intros Hn Ht.
  rewrite clipMirror_fold by lia. rewrite Z.mod_small by lia.
  destruct (Z.gtb_spec t (n - 1)); [lia | reflexivity].
Qed.

(** X1.  On a non-empty array [clipClamp_] and [clipPeriodic_] return
    an index of the array for every integer [t]; [clipMirror_] does so
    exactly when the array has two elements or more. *)
Theorem clip_mappers_range (t n : Z) :
  (1 <= n)%Z ->
  valid_index n (clipClamp_ t n) /\
  valid_index n (clipPeriodic_ t n) /\
  (valid_index n (clipMirror_ t n) <-> (2 <= n)%Z).
Proof.
  intros Hn. split; [now apply clipClamp_valid |].
  split; [now apply clipPeriodic_valid |].
  split.
  - intros [z [Hz _]]. destruct (Z.eq_dec n 1) as [-> | Hne]; [| lia].
    rewrite clipMirror_single in Hz. discriminate Hz.
  - apply clipMirror_valid.
Qed.

Lemma clip_mappers_range_witness :
  valid_index 5 (clipClamp_ (-3) 5) /\
  valid_index 5 (clipPeriodic_ (-3) 5) /\
  valid_index 5 (clipMirror_ (-3) 5).
Proof.
  destruct (clip_mappers_range (-3) 5) as (Hc & Hp & Hm); [lia |].
  split; [exact Hc |]. split; [exact Hp |]. apply Hm. lia.
Defined.

(** X2.  For [n >= 1], [clipPeriodic_(t, n)] is the non-negative
    remainder [t mod n] (the sign correction after [%] turns the
    truncated remainder into the floored one), so it has period [n]
    and fixes the indices of the array. *)
Theorem clipPeriodic_floored_modulo (t n : Z) :
  (1 <= n)%Z ->
  clipPeriodic_ t n = Some (t mod n)%Z /\
  clipPeriodic_ (t + n) n = clipPeriodic_ t n /\
  clipPeriodic_ (t mod n) n = Some (t mod n)%Z.
Proof.
  intros Hn. rewrite !clipPeriodic_mod by lia. repeat split.
  - f_equal. rewrite <- (Z.mul_1_l n) at 1. apply Z.mod_add. lia.
  - f_equal. apply Z.mod_mod. lia.
Qed.

Lemma clipPeriodic_floored_modulo_witness :
  clipPeriodic_ (-7) 5 = Some 3%Z /\
  clipPeriodic_ (-7 + 5) 5 = clipPeriodic_ (-7) 5 /\
  clipPeriodic_ ((-7) mod 5) 5 = Some 3%Z.
Proof.
  apply (clipPeriodic_floored_modulo (-7) 5). lia.
Defined.

(** X3.  For [n >= 2], [clipMirror_] reflects at both ends of the
    array without repeating the end samples: it is even in [t], has
    period [2 * (n - 1)], is symmetric about the last index [n - 1],
    and sends [-1] to [1] and [n] to [n - 2]. *)
Theorem clipMirror_reflects (t n : Z) :
  (2 <= n)%Z ->
  clipMirror_ (- t) n = clipMirror_ t n /\
  clipMirror_ (t + 2 * (n - 1)) n = clipMirror_ t n /\
  clipMirror_ (n - 1 + t) n = clipMirror_ (n - 1 - t) n /\
  clipMirror_ (-1) n = Some 1%Z /\
  clipMirror_ n n = Some (n - 2)%Z.
Proof.
  intros Hn.
  split; [now apply clipMirror_opp |].
  split; [now apply clipMirror_shift |].
  split; [| split].
  - rewrite <- (clipMirror_opp (n - 1 + t)) by lia.
    rewrite <- (clipMirror_shift (- (n - 1 + t))) by lia.
    f_equal. lia.
  - change (-1)%Z with (- (1))%Z. rewrite clipMirror_opp by lia.
    apply clipMirror_id; lia.
  - replace n with (n - 1 + 1)%Z at 1 by lia.
    rewrite <- (clipMirror_opp (n - 1 + 1)) by lia.
    rewrite <- (clipMirror_shift (- (n - 1 + 1))) by lia.
    replace (- (n - 1 + 1) + 2 * (n - 1))%Z with (n - 2)%Z by lia.
    apply clipMirror_id; lia.
Qed.

Lemma clipMirror_reflects_witness :
  clipMirror_ (- 7) 5 = clipMirror_ 7 5 /\
  clipMirror_ (7 + 2 * (5 - 1)) 5 = clipMirror_ 7 5 /\
  clipMirror_ (5 - 1 + 7) 5 = clipMirror_ (5 - 1 - 7) 5 /\
  clipMirror_ (-1) 5 = Some 1%Z /\
  clipMirror_ 5 5 = Some (5 - 2)%Z.
Proof.
  apply (clipMirror_reflects 7 5). lia.
Defined.

(** ** Fetching samples *)

(** The mapper stored by the constructor, by cases on [details.clip]. *)
Lemma constructor_mapper_cases (scaleFrom scaleTo : Z) (d : details.t) :
  let c := constructor scaleFrom scaleTo d in
  (details.clip d = Some "periodic"%string /\ clip_ c = clipPeriodic_) \/
  (details.clip d = Some "mirror"%string /\ clip_ c = clipMirror_) \/
  clip_ c = clipClamp_.
Proof.
  cbn.
  destruct (is_str (details.clip d) "periodic") eqn:Hp.
  - left. split; [now apply is_str_true | reflexivity].
  - destruct (is_str (details.clip d) "mirror") eqn:Hm.
    + right. left. split; [now apply is_str_true | reflexivity].
    + right. right. reflexivity.
Qed.

Lemma constructor_mapper_valid (scaleFrom scaleTo : Z) (d : details.t) (t : Z) :
  mappable scaleFrom d ->
  valid_index scaleFrom (clip_ (constructor scaleFrom scaleTo d) t scaleFrom).
Proof.
  intros [Hn Hpol].
  destruct (constructor_mapper_cases scaleFrom scaleTo d)
    as [[_ ->] | [[Hm ->] | ->]].
  - now apply clipPeriodic_valid.
  - apply clipMirror_valid. destruct Hpol as [H | H]; [exact H | contradiction].
  - now apply clipClamp_valid.
Qed.

Lemma constructor_mapper_id (scaleFrom scaleTo : Z) (d : details.t) (t : Z) :
  mappable scaleFrom d -> (0 <= t < scaleFrom)%Z ->
  clip_ (constructor scaleFrom scaleTo d) t scaleFrom = Some t.
Proof.
  intros [Hn Hpol] Ht.
  destruct (constructor_mapper_cases scaleFrom scaleTo d)
    as [[_ ->] | [[Hm ->] | ->]].
  - rewrite clipPeriodic_mod by lia. f_equal. apply Z.mod_small. lia.
  - apply clipMirror_id; [| exact Ht].
    destruct Hpol as [H | H]; [exact H | contradiction].
  - unfold clipClamp_. f_equal. lia.
Qed.

Lemma sample_at_valid (samples : list R) (n : Z) (r : option Z) :
  Z.of_nat (List.length samples) = n -> valid_index n r ->
  exists p : R, sample_at samples r = Some p /\ In p samples.
Proof.
  intros Hlen [z [-> Hz]]. unfold sample_at.
  destruct (Z.ltb_spec z 0); [lia |].
  destruct (nth_error samples (Z.to_nat z)) as [p |] eqn:E.
  - exists p. split; [reflexivity |]. eapply nth_error_In. exact E.
  - apply nth_error_None in E. lia.
Qed.

Lemma constructor_fetch_defined
    (scaleFrom scaleTo : Z) (d : details.t) (samples : list R) :
  mappable scaleFrom d ->
  Z.of_nat (List.length samples) = scaleFrom ->
  fetch_defined (constructor scaleFrom scaleTo d) samples.
Proof.
  intros Hmap Hlen n. unfold getClippedInput_.
  change (length_ (constructor scaleFrom scaleTo d)) with scaleFrom.
  destruct ((0 <=? n)%Z && (n <? scaleFrom)%Z)%bool eqn:E.
  - apply andb_prop in E. destruct E as [E0 E1].
    apply Z.leb_le in E0. apply Z.ltb_lt in E1.
    apply (sample_at_valid samples scaleFrom); [exact Hlen |].
    exists n. split; [reflexivity | lia].
  - apply (sample_at_valid samples scaleFrom); [exact Hlen |].
    now apply constructor_mapper_valid.
Qed.

Lemma getClippedInput_via_mapper
    (scaleFrom scaleTo : Z) (d : details.t) (t : Z) (samples : list R) :
  mappable scaleFrom d ->
  getClippedInput_ (constructor scaleFrom scaleTo d) t samples =
  sample_at samples (clip_ (constructor scaleFrom scaleTo d) t scaleFrom).
Proof.
  intros Hmap. unfold getClippedInput_.
  change (length_ (constructor scaleFrom scaleTo d)) with scaleFrom.
  destruct ((0 <=? t)%Z && (t <? scaleFrom)%Z)%bool eqn:E; [| reflexivity].
  apply andb_prop in E. destruct E as [E0 E1].
  apply Z.leb_le in E0. apply Z.ltb_lt in E1.
  rewrite constructor_mapper_id by (assumption || lia). reflexivity.
Qed.

(** X4.  On an array the chosen mapper can map, the mapper fixes
    every index of [[0, length)], so the range test of
    [getClippedInput_] is a shortcut: every fetch reads
    [samples[clip_(t, length)]]. *)
Theorem range_test_agrees_with_mapper
    (scaleFrom scaleTo : Z) (d : details.t) (t : Z) (samples : list R) :
  mappable scaleFrom d ->
  let c := constructor scaleFrom scaleTo d in
  getClippedInput_ c t samples = sample_at samples (clip_ c t (length_ c)).
Proof.
  intros Hmap c. apply getClippedInput_via_mapper. exact Hmap.
Qed.

Lemma range_test_agrees_with_mapper_witness :
  let c := constructor 5 10 (with_clip "mirror") in
  getClippedInput_ c 3 [0; 10; 0; 10; 0] =
  sample_at [0; 10; 0; 10; 0] (clip_ c 3 (length_ c)).
Proof.
  apply (range_test_agrees_with_mapper 5 10 (with_clip "mirror") 3
           [0; 10; 0; 10; 0]).
  split; [lia | left; lia].
Defined.

(** X5.  When [samples] has [scaleFrom] elements and the chosen mapper
    can map the array, a fetch at any integer index, however far
    outside the array, returns one of the samples: never [undefined]. *)
Theorem fetch_returns_a_sample
    (scaleFrom scaleTo : Z) (d : details.t) (samples : list R) (t : Z) :
  mappable scaleFrom d ->
  Z.of_nat (List.length samples) = scaleFrom ->
  exists p : R,
    getClippedInput_ (constructor scaleFrom scaleTo d) t samples = Some p /\
    In p samples.
Proof.
  intros Hmap Hlen.
  apply (constructor_fetch_defined scaleFrom scaleTo d samples Hmap Hlen).
Qed.

Lemma fetch_returns_a_sample_witness :
  exists p : R,
    getClippedInput_ (constructor 5 10 (with_clip "periodic")) (-42)
      [0; 10; 0; 10; 0] = Some p /\
    In p [0; 10; 0; 10; 0].
Proof.
  apply (fetch_returns_a_sample 5 10 (with_clip "periodic")
           [0; 10; 0; 10; 0] (-42)).
  - split; [lia | left; lia].
  - reflexivity.
Defined.

(** ** The tangent factor *)

Lemma tangentFactor_full_tension
    (scaleFrom scaleTo : Z) (d : details.t) (x : R) :
  details.tension d = Some x -> 1 <= x ->
  tangentFactor_ (constructor scaleFrom scaleTo d) = 0.
Proof.
  intros Hx Hle. cbn. rewrite Hx. unfold or_default_R.
  destruct (Req_dec_T x 0) as [E | E]; [lra |].
  unfold Rmin. destruct (Rle_dec 1 x); [| lra].
  unfold Rmax. destruct (Rle_dec 0 1); lra.
Qed.

(** X6.  Whatever [details.tension] is, the tangent factor lies in
    [[0, 1]]: it is [1] when the tension is absent or not positive,
    [1 - tension] for a tension in [[0, 1]], and [0] for a tension of
    [1] or more. *)
Theorem tangentFactor_clamped (scaleFrom scaleTo : Z) (d : details.t) :
  let tf := tangentFactor_ (constructor scaleFrom scaleTo d) in
  0 <= tf <= 1 /\
  (details.tension d = None -> tf = 1) /\
  (forall x : R, details.tension d = Some x -> x <= 0 -> tf = 1) /\
  (forall x : R, details.tension d = Some x -> 0 <= x <= 1 -> tf = 1 - x) /\
  (forall x : R, details.tension d = Some x -> 1 <= x -> tf = 0).
Proof.
  cbn. unfold or_default_R.
  destruct (details.tension d) as [x |].
  - destruct (Req_dec_T x 0) as [E | E];
      unfold Rmin;
      match goal with
      | |- context [Rle_dec 1 ?v] => destruct (Rle_dec 1 v)
      end;
      unfold Rmax;
      match goal with
      | |- context [Rle_dec 0 ?v] => destruct (Rle_dec 0 v)
      end;
      (split; [lra |]); (split; [discriminate |]);
      (split; [| split]); intros y Hy Hb; injection Hy as <-; lra.
  - unfold Rmin. destruct (Rle_dec 1 0); [lra |].
    unfold Rmax. destruct (Rle_dec 0 0); [| lra].
    (split; [lra |]); (split; [intros _; lra |]);
      (split; [| split]); intros y Hy; discriminate Hy.
Qed.

(** ** Values of point, linear and cubic interpolation *)

Lemma floor_frac_range (u : R) : 0 <= u - IZR (Math_floor u) < 1.
Proof. pose proof (Zfloor_bound u). unfold Math_floor. lra. Qed.

Lemma evaluate_by_method (scaleFrom scaleTo : Z) (d : details.t)
    (t : R) (samples : list R) :
  let c := constructor scaleFrom scaleTo d in
  (details.method d = Some "point"%string ->
   evaluate c t samples = point c t samples) /\
  (details.method d = Some "linear"%string ->
   evaluate c t samples = linear c t samples) /\
  (details.method d = Some "cubic"%string ->
   evaluate c t samples = cubic c t samples).
Proof.
  cbv zeta. unfold evaluate, constructor. cbn [interpolate].
  repeat split; intros ->; reflexivity.
Qed.

Lemma linear_value (c : Interpolator) (t : R) (samples : list R) (p0 p1 : R) :
  let u := scaleFactor_ c * t in
  let k := Math_floor u in
  getClippedInput_ c k samples = Some p0 ->
  getClippedInput_ c (k + 1)%Z samples = Some p1 ->
  linear c t samples = Some ((1 - (u - IZR k)) * p0 + (u - IZR k) * p1).
Proof.
  intros u k H0 H1. unfold linear. fold u. fold k. rewrite H0, H1. reflexivity.
Qed.

Lemma cubic_value (c : Interpolator) (t : R) (samples : list R)
    (pm p0 p1 p2 : R) :
  let u := scaleFactor_ c * t in
  let k := Math_floor u in
  let f := u - IZR k in
  getClippedInput_ c (k - 1)%Z samples = Some pm ->
  getClippedInput_ c k samples = Some p0 ->
  getClippedInput_ c (k + 1)%Z samples = Some p1 ->
  getClippedInput_ c (k + 2)%Z samples = Some p2 ->
  cubic c t samples =
  Some (hermite_h00 f * p0 + hermite_h10 f * (tangentFactor_ c * (p1 - pm) / 2) +
        hermite_h01 f * p1 + hermite_h11 f * (tangentFactor_ c * (p2 - p0) / 2)).
Proof.
  intros u k f Hm H0 H1 H2. rewrite cubic_hermite. fold u. fold k. fold f.
  rewrite Hm, H0, H1, H2. reflexivity.
Qed.

(** X7.  Linear interpolation never overshoots: with [samples] of
    length [scaleFrom] and a mapper that can map the array, the value
    at any real [t] lies between the two samples fetched at
    [floor(u)] and [floor(u) + 1]. *)
Theorem linear_between_fetched_samples
    (scaleFrom scaleTo : Z) (d : details.t) (samples : list R) (t : R) :
  details.method d = Some "linear"%string ->
  mappable scaleFrom d ->
  Z.of_nat (List.length samples) = scaleFrom ->
  let c := constructor scaleFrom scaleTo d in
  let k := Math_floor (scaleFactor_ c * t) in
  exists p0 p1 v : R,
    getClippedInput_ c k samples = Some p0 /\ In p0 samples /\
    getClippedInput_ c (k + 1)%Z samples = Some p1 /\ In p1 samples /\
    evaluate c t samples = Some v /\
    Rmin p0 p1 <= v <= Rmax p0 p1.
Proof.
  intros Hm Hmap Hlen c k.
  pose proof (constructor_fetch_defined scaleFrom scaleTo d samples Hmap Hlen)
    as Hf. fold c in Hf.
  destruct (Hf k) as [p0 [H0 I0]]. destruct (Hf (k + 1)%Z) as [p1 [H1 I1]].
  exists p0, p1. eexists.
  repeat (split; [eassumption |]).
  split.
  - destruct (evaluate_by_method scaleFrom scaleTo d t samples) as (_ & El & _).
    fold c in El. rewrite (El Hm). apply linear_value; eassumption.
  - pose proof (floor_frac_range (scaleFactor_ c * t)) as Hr.
    cbv zeta. fold k. fold k in Hr.
    generalize dependent (scaleFactor_ c * t - IZR k). intros f Hr.
    unfold Rmin, Rmax. destruct (Rle_dec p0 p1); split; nra.
Qed.

Lemma linear_between_fetched_samples_witness :
  let c := constructor 5 10 (with_method "linear") in
  let k := Math_floor (scaleFactor_ c * 3) in
  exists p0 p1 v : R,
    getClippedInput_ c k [0; 10; 0; 10; 0] = Some p0 /\
    In p0 [0; 10; 0; 10; 0] /\
    getClippedInput_ c (k + 1)%Z [0; 10; 0; 10; 0] = Some p1 /\
    In p1 [0; 10; 0; 10; 0] /\
    evaluate c 3 [0; 10; 0; 10; 0] = Some v /\
    Rmin p0 p1 <= v <= Rmax p0 p1.
Proof.
  apply (linear_between_fetched_samples 5 10 (with_method "linear")
           [0; 10; 0; 10; 0] 3).
  - reflexivity.
  - split; [lia | left; lia].
  - reflexivity.
Defined.

Lemma clamp_floor_range (scaleFrom scaleTo : Z) (t : R) :
  (2 <= scaleFrom)%Z -> (1 <= scaleTo)%Z -> 0 <= t < IZR scaleTo ->
  (0 <= Math_floor ((IZR scaleFrom - 1) / IZR scaleTo * t) < scaleFrom - 1)%Z.
Proof.
  intros Hn Hm Ht.
  pose proof (clamp_coordinate_range scaleFrom scaleTo t Hn Hm Ht) as Hr.
  pose proof (Zfloor_bound ((IZR scaleFrom - 1) / IZR scaleTo * t)) as [Hlo Hhi].
  unfold Math_floor. split.
  - apply (Zfloor_lub 0). simpl. lra.
  - apply lt_IZR. rewrite minus_IZR. lra.
Qed.

(** X8.  Linear interpolation is exact on lines: for the clamp mapper,
    [scaleFrom >= 2] and [0 <= t < scaleTo], if the samples are
    [samples[i] = a * i + b], the value is [a * u + b] at the source
    coordinate [u = scaleFactor * t]. *)
Theorem linear_exact_on_lines
    (scaleFrom scaleTo : Z) (d : details.t) (samples : list R) (a b t : R) :
  details.method d = Some "linear"%string ->
  clip_ (constructor scaleFrom scaleTo d) = clipClamp_ ->
  (2 <= scaleFrom)%Z -> (1 <= scaleTo)%Z -> 0 <= t < IZR scaleTo ->
  (forall i : Z, (0 <= i < scaleFrom)%Z ->
                 sample_at samples (Some i) = Some (a * IZR i + b)) ->
  let c := constructor scaleFrom scaleTo d in
  evaluate c t samples = Some (a * (scaleFactor_ c * t) + b).
Proof.
  intros Hm Hc Hn Hto Ht Hline c.
  apply clamp_policy_not_periodic in Hc.
  assert (Hu : scaleFactor_ c = (IZR scaleFrom - 1) / IZR scaleTo).
  { unfold c, constructor. cbn [scaleFactor_]. rewrite Hc. reflexivity. }
  pose proof (clamp_floor_range scaleFrom scaleTo t Hn Hto Ht) as Hk.
  rewrite <- Hu in Hk.
  destruct (evaluate_by_method scaleFrom scaleTo d t samples) as (_ & El & _).
  fold c in El. rewrite (El Hm).
  rewrite (linear_value c t samples
             (a * IZR (Math_floor (scaleFactor_ c * t)) + b)
             (a * IZR (Math_floor (scaleFactor_ c * t) + 1) + b)).
  - f_equal. rewrite plus_IZR. ring.
  - destruct (getClippedInput_in_range c (Math_floor (scaleFactor_ c * t)) samples)
      as [_ ->]; [change (length_ c) with scaleFrom; lia |].
    apply Hline. lia.
  - destruct (getClippedInput_in_range c (Math_floor (scaleFactor_ c * t) + 1)%Z
                samples) as [_ ->]; [change (length_ c) with scaleFrom; lia |].
    apply Hline. lia.
Qed.

Lemma linear_exact_on_lines_witness :
  let c := constructor 3 10 (with_method "linear") in
  evaluate c 7 [1; 3; 5] = Some (2 * (scaleFactor_ c * 7) + 1).
Proof.
  apply (linear_exact_on_lines 3 10 (with_method "linear") [1; 3; 5] 2 1 7).
  - reflexivity.
  - reflexivity.
  - lia.
  - lia.
  - lra.
  - intros i Hi.
    assert (Hc : (i = 0 \/ i = 1 \/ i = 2)%Z) by lia.
    destruct Hc as [-> | [-> | ->]]; unfold sample_at; simpl; f_equal; lra.
Defined.

(** X9.  Cubic interpolation reproduces a constant signal: with
    [samples] of length [scaleFrom] all equal to [v] and a mapper that
    can map the array, the value at every real [t] is [v], for any
    tension. *)
Theorem cubic_exact_on_constants
    (scaleFrom scaleTo : Z) (d : details.t) (samples : list R) (v t : R) :
  details.method d = Some "cubic"%string ->
  mappable scaleFrom d ->
  Z.of_nat (List.length samples) = scaleFrom ->
  (forall p : R, In p samples -> p = v) ->
  evaluate (constructor scaleFrom scaleTo d) t samples = Some v.
Proof.
  intros Hm Hmap Hlen Hconst.
  pose proof (constructor_fetch_defined scaleFrom scaleTo d samples Hmap Hlen)
    as Hf.
  set (c := constructor scaleFrom scaleTo d) in *.
  assert (Hv : forall n : Z, getClippedInput_ c n samples = Some v).
  { intros n. destruct (Hf n) as [p [Hp Ip]]. rewrite Hp.
    f_equal. now apply Hconst. }
  destruct (evaluate_by_method scaleFrom scaleTo d t samples) as (_ & _ & Ec).
  fold c in Ec. rewrite (Ec Hm).
  rewrite (cubic_value c t samples v v v v) by apply Hv.
  f_equal. unfold hermite_h00, hermite_h10, hermite_h01, hermite_h11. field.
Qed.

Lemma cubic_exact_on_constants_witness :
  evaluate (constructor 4 9 (with_method_clip "cubic" "mirror")) 5
    [7; 7; 7; 7] = Some 7.
Proof.
  apply (cubic_exact_on_constants 4 9 (with_method_clip "cubic" "mirror")
           [7; 7; 7; 7] 7 5).
  - reflexivity.
  - split; [lia | left; lia].
  - reflexivity.
  - intros p Hp. simpl in Hp.
    destruct Hp as [<- | [<- | [<- | [<- | []]]]]; reflexivity.
Defined.

(** X10.  With a tension of [1] or more the tangents vanish and cubic
    interpolation is the smoothstep blend of the two fetched samples:
    [p0 + (3f^2 - 2f^3) * (p1 - p0)] where [f = u - floor(u)]. *)
Theorem cubic_full_tension_is_smoothstep
    (scaleFrom scaleTo : Z) (d : details.t) (samples : list R) (x t : R) :
  details.method d = Some "cubic"%string ->
  details.tension d = Some x -> 1 <= x ->
  mappable scaleFrom d ->
  Z.of_nat (List.length samples) = scaleFrom ->
  let c := constructor scaleFrom scaleTo d in
  let u := scaleFactor_ c * t in
  let k := Math_floor u in
  let f := u - IZR k in
  exists p0 p1 : R,
    getClippedInput_ c k samples = Some p0 /\
    getClippedInput_ c (k + 1)%Z samples = Some p1 /\
    evaluate c t samples = Some (p0 + (3 * f ^ 2 - 2 * f ^ 3) * (p1 - p0)).
Proof.
  intros Hm Hten Hx Hmap Hlen c u k f.
  pose proof (constructor_fetch_defined scaleFrom scaleTo d samples Hmap Hlen)
    as Hf. fold c in Hf.
  destruct (Hf (k - 1)%Z) as [pm [Hpm _]]. destruct (Hf k) as [p0 [Hp0 _]].
  destruct (Hf (k + 1)%Z) as [p1 [Hp1 _]]. destruct (Hf (k + 2)%Z) as [p2 [Hp2 _]].
  exists p0, p1. split; [exact Hp0 |]. split; [exact Hp1 |].
  destruct (evaluate_by_method scaleFrom scaleTo d t samples) as (_ & _ & Ec).
  fold c in Ec. rewrite (Ec Hm).
  rewrite (cubic_value c t samples pm p0 p1 p2) by assumption.
  fold u. fold k. fold f.
  unfold c at 1 2. rewrite (tangentFactor_full_tension _ _ _ x Hten Hx).
  f_equal. unfold hermite_h00, hermite_h10, hermite_h01, hermite_h11. field.
Qed.

Lemma cubic_full_tension_is_smoothstep_witness :
  let c := constructor 5 10 (with_method_tension "cubic" 2) in
  let u := scaleFactor_ c * 3 in
  let k := Math_floor u in
  let f := u - IZR k in
  exists p0 p1 : R,
    getClippedInput_ c k [0; 10; 0; 10; 0] = Some p0 /\
    getClippedInput_ c (k + 1)%Z [0; 10; 0; 10; 0] = Some p1 /\
    evaluate c 3 [0; 10; 0; 10; 0] =
    Some (p0 + (3 * f ^ 2 - 2 * f ^ 3) * (p1 - p0)).
Proof.
  apply (cubic_full_tension_is_smoothstep 5 10
           (with_method_tension "cubic" 2) [0; 10; 0; 10; 0] 2 3).
  - reflexivity.
  - reflexivity.
  - lra.
  - split; [lia | left; lia].
  - reflexivity.
Defined.

(** X11.  At a source coordinate that is an integer [k], point,
    linear and cubic interpolation return the sample fetched at [k]
    (for [samples] of length [scaleFrom] and a mapper that can map the
    array); in particular the value at [t = 0] is [samples[0]]. *)
Theorem interpolation_at_integer_coordinate
    (scaleFrom scaleTo : Z) (d : details.t) (samples : list R) (t : R) (k : Z) :
  details.method d = Some "point"%string \/
  details.method d = Some "linear"%string \/
  details.method d = Some "cubic"%string ->
  mappable scaleFrom d ->
  Z.of_nat (List.length samples) = scaleFrom ->
  scaleFactor_ (constructor scaleFrom scaleTo d) * t = IZR k ->
  evaluate (constructor scaleFrom scaleTo d) t samples =
  getClippedInput_ (constructor scaleFrom scaleTo d) k samples.
Proof.
  intros Hm Hmap Hlen Hu.
  pose proof (constructor_fetch_defined scaleFrom scaleTo d samples Hmap Hlen)
    as Hf.
  set (c := constructor scaleFrom scaleTo d) in *.
  assert (Hk : Math_floor (scaleFactor_ c * t) = k).
  { rewrite Hu. apply Math_floor_eq. lra. }
  destruct (evaluate_by_method scaleFrom scaleTo d t samples) as (Ep & El & Ec).
  fold c in Ep, El, Ec.
  destruct Hm as [Hm | [Hm | Hm]].
  - rewrite (Ep Hm). unfold point. f_equal.
    rewrite Hu. unfold Math_round. apply Zfloor_eq. lra.
  - rewrite (El Hm).
    destruct (Hf k) as [p0 [Hp0 _]]. destruct (Hf (k + 1)%Z) as [p1 [Hp1 _]].
    rewrite (linear_value c t samples p0 p1) by (rewrite Hk; assumption).
    rewrite Hp0, Hk, Hu. f_equal. ring.
  - rewrite (Ec Hm).
    destruct (Hf (k - 1)%Z) as [pm [Hpm _]]. destruct (Hf k) as [p0 [Hp0 _]].
    destruct (Hf (k + 1)%Z) as [p1 [Hp1 _]].
    destruct (Hf (k + 2)%Z) as [p2 [Hp2 _]].
    rewrite (cubic_value c t samples pm p0 p1 p2) by (rewrite Hk; assumption).
    rewrite Hp0, Hk, Hu. f_equal.
    unfold hermite_h00, hermite_h10, hermite_h01, hermite_h11. field.
Qed.

Lemma interpolation_at_integer_coordinate_witness :
  evaluate (constructor 5 4 (with_method "cubic")) 2 [0; 10; 0; 10; 0] =
  getClippedInput_ (constructor 5 4 (with_method "cubic")) 2 [0; 10; 0; 10; 0] /\
  evaluate (constructor 5 10 (with_method "linear")) 0 [3; 10; 0; 10; 0] =
  getClippedInput_ (constructor 5 10 (with_method "linear")) 0 [3; 10; 0; 10; 0].
Proof.
  split.
  - apply (interpolation_at_integer_coordinate 5 4 (with_method "cubic")
             [0; 10; 0; 10; 0] 2 2).
    + right. right. reflexivity.
    + split; [lia | left; lia].
    + reflexivity.
    + change (scaleFactor_ (constructor 5 4 (with_method "cubic")))
        with ((5 - 1) / 4). lra.
  - apply (interpolation_at_integer_coordinate 5 10 (with_method "linear")
             [3; 10; 0; 10; 0] 0 0).
    + right. left. reflexivity.
    + split; [lia | left; lia].
    + reflexivity.
    + change (scaleFactor_ (constructor 5 10 (with_method "linear")))
        with ((5 - 1) / 10). lra.
Defined.

(** ** The sinc kernels *)

Lemma sinc_opp (x : R) : sinc_ (- x) = sinc_ x.
Proof.
  unfold sinc_.
  destruct (Req_dec_T x 0) as [Hx | Hx]; destruct (Req_dec_T (- x) 0) as [Hm | Hm];
    try reflexivity; try (exfalso; lra).
  replace (PI * - x) with (- (PI * x)) by ring.
  rewrite sin_neg. field. split; [exact Hx | exact PI_neq0].
Qed.

Lemma sinc_at_integer (z : Z) : z <> 0%Z -> sinc_ (IZR z) = 0.
Proof.
  intros Hz. rewrite sinc_away_from_zero.
  - rewrite (sin_eq_0_1 (PI * IZR z)).
    + unfold Rdiv. apply Rmult_0_l.
    + exists z. ring.
  - intros E. apply eq_IZR_R0 in E. contradiction.
Qed.

Lemma gaussian_exponent_range (x : R) : 0 < exp (- x * x) <= 1.
Proof.
  split; [apply exp_pos |].
  rewrite <- exp_0.
  destruct (Req_dec_T x 0) as [-> | Hx].
  - right. f_equal. ring.
  - left. apply exp_increasing. nra.
Qed.

(** X14.  The default kernel (sinc times the Gaussian window) and the
    Lanczos kernel of a non-zero size are even, are [1] at [0] and
    vanish at every other integer; the Gaussian window takes its
    values in [(0, 1]]. *)
Theorem kernels_even_and_interpolating (s : Z) :
  s <> 0%Z ->
  (forall x : R,
      sincKernel_ gaussianWindow_ (- x) = sincKernel_ gaussianWindow_ x /\
      sincKernel_ (lanczosWindow_ (Some s)) (- x) =
      sincKernel_ (lanczosWindow_ (Some s)) x) /\
  sincKernel_ gaussianWindow_ 0 = Some 1 /\
  sincKernel_ (lanczosWindow_ (Some s)) 0 = Some 1 /\
  (forall z : Z, z <> 0%Z ->
      sincKernel_ gaussianWindow_ (IZR z) = Some 0 /\
      sincKernel_ (lanczosWindow_ (Some s)) (IZR z) = Some 0) /\
  (forall x : R, exists w : R, gaussianWindow_ x = Some w /\ 0 < w <= 1).
Proof.
  intros Hs.
  assert (Hl : forall x, lanczosWindow_ (Some s) x = Some (sinc_ (x / IZR s))).
  { intros x. unfold lanczosWindow_.
    destruct (Z.eqb_spec s 0); [contradiction | reflexivity]. }
  assert (Hs' : IZR s <> 0) by (intros E; apply eq_IZR_R0 in E; contradiction).
  split; [| split; [| split; [| split]]].
  - intros x. unfold sincKernel_, gaussianWindow_. rewrite !Hl.
    cbn [num_mul num_lift2]. rewrite sinc_opp. split.
    + do 2 f_equal. f_equal. ring.
    + replace (- x / IZR s) with (- (x / IZR s)) by (field; exact Hs').
      rewrite sinc_opp. reflexivity.
  - unfold sincKernel_, gaussianWindow_. cbn [num_mul num_lift2].
    rewrite sinc_at_zero. f_equal.
    replace (- 0 * 0) with 0 by ring. rewrite exp_0. ring.
  - unfold sincKernel_. rewrite Hl. cbn [num_mul num_lift2].
    replace (0 / IZR s) with 0 by (field; exact Hs').
    rewrite sinc_at_zero. f_equal. ring.
  - intros z Hz. unfold sincKernel_, gaussianWindow_. rewrite Hl.
    cbn [num_mul num_lift2]. rewrite (sinc_at_integer z Hz).
    split; f_equal; ring.
  - intros x. eexists. split; [reflexivity |]. apply gaussian_exponent_range.
Qed.

Lemma kernels_even_and_interpolating_witness :
  sincKernel_ gaussianWindow_ 0 = Some 1 /\
  sincKernel_ (lanczosWindow_ (Some 3%Z)) 0 = Some 1 /\
  sincKernel_ gaussianWindow_ 2 = Some 0 /\
  sincKernel_ (lanczosWindow_ (Some 3%Z)) 2 = Some 0.
Proof.
  destruct (kernels_even_and_interpolating 3) as (_ & H0 & H1 & Hz & _);
    [lia |].
  destruct (Hz 2%Z) as [Hg Hl]; [lia |].
  split; [exact H0 |]. split; [exact H1 |]. split; [exact Hg | exact Hl].
Defined.

(** ** The loop of sinc *)

Lemma loop_measure_decreases (ref ref1 j : Z) :
  loop_cond ref ref1 j = true ->
  (loop_measure ref ref1 (loop_next ref ref1 j) < loop_measure ref ref1 j)%nat.
Proof.
  unfold loop_cond, loop_next, loop_measure.
  destruct (ref <=? ref1)%Z; lia.
Qed.

(** The loop runs its body at least once. *)
Lemma loop_cond_first (ref ref1 : Z) : loop_cond ref ref1 ref = true.
Proof. unfold loop_cond. destruct (Z.leb_spec ref ref1); lia. Qed.

(** A property of the running sum that every added term preserves
    holds of the result of the loop. *)
Lemma sinc_loop_invariant (P : number -> Prop) (c : Interpolator)
    (samples : list R) (t : R) (ref ref1 : Z) :
  (forall (sum : number) (n : Z),
      P sum -> P (num_add sum (sinc_term c samples t n))) ->
  forall (j : Z) (sum : number),
    P sum -> P (sinc_loop c samples t ref ref1 j sum).
Proof.
  intros Hstep j.
  remember (loop_measure ref ref1 j) as m eqn:Hm.
  revert j Hm. induction m as [m IH] using lt_wf_ind.
  intros j Hm sum Hsum. rewrite sinc_loop_step.
  destruct (loop_cond ref ref1 j) eqn:Hc; [| exact Hsum].
  apply (IH (loop_measure ref ref1 (loop_next ref ref1 j))).
  - subst m. now apply loop_measure_decreases.
  - reflexivity.
  - now apply Hstep.
Qed.

(** When [ref > ref1] the loop counts downwards and adds one term for
    each of the [len] integers from [j] down to [ref1]. *)
Lemma sinc_loop_descending (c : Interpolator) (samples : list R) (t : R)
    (ref ref1 : Z) :
  (ref1 < ref)%Z ->
  forall (len : nat) (j : Z) (sum : number),
    (j - Z.of_nat len = ref1 - 1)%Z ->
    sinc_loop c samples t ref ref1 j sum =
    fold_left (fun acc n => num_add acc (sinc_term c samples t n))
      (int_seq_down j len) sum.
Proof.
  intros Href. induction len as [| len IH]; intros j sum Hj;
    rewrite sinc_loop_step; unfold loop_cond, loop_next;
    destruct (Z.leb_spec ref ref1) as [Hbad | _]; try lia;
    rewrite Z.geb_leb.
  - destruct (Z.leb_spec ref1 j); [lia | reflexivity].
  - destruct (Z.leb_spec ref1 j); [| lia].
    rewrite IH by lia. reflexivity.
Qed.

Lemma In_int_seq_down (n : Z) (len : nat) (hi : Z) :
  In n (int_seq_down hi len) <-> (hi - Z.of_nat len < n <= hi)%Z.
Proof.
  revert hi. induction len as [| len IH]; intros hi; simpl.
  - lia.
  - rewrite IH. lia.
Qed.

(** X15.  A negative [sincFilterSize] does not give an empty sum: the
    loop of [sinc] then counts downwards, from [k - size + 1] to
    [k + size], and adds [2 - 2 * size] terms ([k = floor(u)]). *)
Theorem sinc_negative_filter_size_counts_down
    (scaleFrom scaleTo : Z) (d : details.t) (z : Z) (t : R) (samples : list R) :
  details.method d = Some "sinc"%string ->
  details.sincFilterSize d = Some z -> (z < 0)%Z ->
  let c := constructor scaleFrom scaleTo d in
  let u := scaleFactor_ c * t in
  let k := Math_floor u in
  let visited := int_seq_down (k - z + 1) (Z.to_nat (2 - 2 * z)) in
  evaluate c t samples =
  num_sum
    (map (fun n : Z =>
            num_mul (kernel_ c (u - IZR n)) (getClippedInput_ c n samples))
       visited) /\
  (forall n : Z, In n visited <-> (k + z <= n <= k - z + 1)%Z) /\
  (4 <= List.length visited)%nat.
Proof.
  intros Hm Hfs Hz c u k visited.
  assert (Ev : evaluate c t samples = sinc c t samples).
  { unfold evaluate, c, constructor. rewrite Hm. reflexivity. }
  assert (Hsize : sincFilterSize_ c = z).
  { unfold c, constructor. cbn [sincFilterSize_]. rewrite Hfs.
    unfold or_default_Z. destruct (Z.eqb_spec z 0); [lia | reflexivity]. }
  split; [| split].
  - rewrite Ev. unfold sinc. fold u. fold k. rewrite Hsize.
    rewrite (sinc_loop_descending c samples u (k - z + 1) (k + z) ltac:(lia)
               (Z.to_nat (2 - 2 * z))) by lia.
    apply fold_left_num_add_map.
  - intros n. unfold visited. rewrite In_int_seq_down. lia.
  - unfold visited.
    assert (Hlen : forall len hi, List.length (int_seq_down hi len) = len).
    { induction len as [| len IH]; intros hi; simpl; [| rewrite IH]; reflexivity. }
    rewrite Hlen. lia.
Qed.

Lemma sinc_negative_filter_size_counts_down_witness :
  let c := constructor 5 10 (sinc_details (-1)) in
  let u := scaleFactor_ c * 3 in
  let k := Math_floor u in
  let visited := int_seq_down (k - -1 + 1) (Z.to_nat (2 - 2 * -1)) in
  evaluate c 3 [0; 10; 0; 10; 0] =
  num_sum
    (map (fun n : Z =>
            num_mul (kernel_ c (u - IZR n))
              (getClippedInput_ c n [0; 10; 0; 10; 0]))
       visited) /\
  (forall n : Z, In n visited <-> (k + -1 <= n <= k - -1 + 1)%Z) /\
  (4 <= List.length visited)%nat.
Proof.
  apply (sinc_negative_filter_size_counts_down 5 10 (sinc_details (-1)) (-1) 3
           [0; 10; 0; 10; 0]).
  - reflexivity.
  - reflexivity.
  - lia.
Defined.

(** X16.  For [method = 'lanczos'] without a [lanczosFilterSize], or
    with the size [0], every kernel value is [NaN] and so is every
    interpolated value, whatever [t] and the samples are. *)
Theorem lanczos_without_size_is_NaN
    (scaleFrom scaleTo : Z) (d : details.t) (t : R) (samples : list R) :
  details.method d = Some "lanczos"%string ->
  details.lanczosFilterSize d = None \/
  details.lanczosFilterSize d = Some 0%Z ->
  (forall x : R, kernel_ (constructor scaleFrom scaleTo d) x = None) /\
  evaluate (constructor scaleFrom scaleTo d) t samples = None.
Proof.
  intros Hm Hsize.
  set (c := constructor scaleFrom scaleTo d).
  assert (Ev : evaluate c t samples = sinc c t samples).
  { unfold evaluate, c, constructor. rewrite Hm. reflexivity. }
  assert (Hk : forall x : R, kernel_ c x = None).
  { intros x. unfold c, constructor. cbn [kernel_]. rewrite Hm. cbn.
    destruct Hsize as [-> | ->]; reflexivity. }
  split; [exact Hk |].
  rewrite Ev. unfold sinc. rewrite sinc_loop_step, loop_cond_first.
  apply sinc_loop_invariant.
  - intros sum n ->. reflexivity.
  - unfold sinc_term. rewrite Hk. reflexivity.
Qed.

Lemma lanczos_without_size_is_NaN_witness :
  (forall x : R, kernel_ (constructor 5 10 (with_method "lanczos")) x = None) /\
  evaluate (constructor 5 10 (with_method "lanczos")) 3 [0; 10; 0; 10; 0] = None.
Proof.
  apply (lanczos_without_size_is_NaN 5 10 (with_method "lanczos") 3
           [0; 10; 0; 10; 0]).
  - reflexivity.
  - left. reflexivity.
Defined.

(** ** Values of sinc interpolation *)

(** The kernel built by the constructor has a value everywhere, and
    the value [1] at [0], when it is the Lanczos kernel of a non-zero
    size or the default Gaussian one. *)
Lemma constructor_kernel (scaleFrom scaleTo : Z) (d : details.t) :
  (details.method d = Some "lanczos"%string /\
   exists s : Z, details.lanczosFilterSize d = Some s /\ s <> 0%Z) \/
  (details.method d <> Some "lanczos"%string /\ details.sincWindow d = None) ->
  exists w : R -> R,
    (forall x : R,
        kernel_ (constructor scaleFrom scaleTo d) x = Some (sinc_ x * w x)) /\
    w 0 = 1.
Proof.
  intros Hw. unfold constructor. cbn [kernel_].
  destruct Hw as [[Hl [s [Hs Hs0]]] | [Hl Hwin]].
  - apply is_str_true in Hl. rewrite Hl.
    exists (fun x => sinc_ (x / IZR s)). split.
    + intros x. unfold sincKernel_, lanczosWindow_. rewrite Hs.
      destruct (Z.eqb_spec s 0); [contradiction | reflexivity].
    + replace (0 / IZR s) with 0.
      * apply sinc_at_zero.
      * unfold Rdiv. now rewrite Rmult_0_l.
  - apply is_str_false in Hl. rewrite Hl, Hwin.
    exists (fun x => exp (- x * x)). split.
    + intros x. reflexivity.
    + replace (- 0 * 0) with 0 by ring. apply exp_0.
Qed.

(** A sum of terms that are all [0] except the one at [k]. *)
Lemma fold_single_term (term : Z -> number) (k : Z) (p : R) (l : list Z) :
  NoDup l ->
  term k = Some p ->
  (forall n : Z, n <> k -> term n = Some 0) ->
  forall a : R,
    exists v : R,
      fold_left num_add (map term l) (Some a) = Some v /\
      (In k l -> v = a + p) /\ (~ In k l -> v = a).
Proof.
  intros Hnd Hk Hz. induction Hnd as [| n l Hn Hnd IH]; intros a.
  - exists a. split; [reflexivity |]. split; [intros [] | reflexivity].
  - cbn [map fold_left].
    destruct (Z.eq_dec n k) as [-> | Hne].
    + rewrite Hk. cbn [num_add num_lift2].
      destruct (IH (a + p)) as [v [Hv [_ Hout]]].
      exists v. split; [exact Hv |].
      split; [intros _; now apply Hout |].
      intros Hnot. exfalso. apply Hnot. now left.
    + rewrite (Hz n Hne). cbn [num_add num_lift2].
      destruct (IH (a + 0)) as [v [Hv [Hin Hout]]].
      exists v. split; [exact Hv |]. split.
      * intros [E | Hk']; [contradiction |]. rewrite (Hin Hk'). ring.
      * intros Hnot. rewrite Hout; [ring |].
        intros Hk'. apply Hnot. now right.
Qed.

(** X17.  Sinc interpolation passes through the samples: with the
    Gaussian window or a Lanczos window of non-zero size, a filter
    size of [1] or more, [samples] of length [scaleFrom] and a mapper
    that can map the array, the value at a source coordinate that is
    an integer [k] is the sample fetched at [k]. *)
Theorem sinc_at_integer_coordinate
    (scaleFrom scaleTo : Z) (d : details.t) (samples : list R) (t : R) (k : Z) :
  (details.method d = Some "lanczos"%string /\
   exists s : Z, details.lanczosFilterSize d = Some s /\ s <> 0%Z) \/
  (details.method d = Some "sinc"%string /\ details.sincWindow d = None) ->
  (1 <= or_default_Z (details.sincFilterSize d) 1)%Z ->
  mappable scaleFrom d ->
  Z.of_nat (List.length samples) = scaleFrom ->
  scaleFactor_ (constructor scaleFrom scaleTo d) * t = IZR k ->
  evaluate (constructor scaleFrom scaleTo d) t samples =
  getClippedInput_ (constructor scaleFrom scaleTo d) k samples.
Proof.
  intros Hw Hfs Hmap Hlen Hu.
  pose proof (constructor_fetch_defined scaleFrom scaleTo d samples Hmap Hlen)
    as Hf.
  destruct (constructor_kernel scaleFrom scaleTo d) as [w [Hker Hw0]].
  { destruct Hw as [Hl | [Hs Hwin]]; [left; exact Hl | right].
    split; [rewrite Hs; discriminate | exact Hwin]. }
  assert (Ev : evaluate (constructor scaleFrom scaleTo d) t samples =
               sinc (constructor scaleFrom scaleTo d) t samples).
  { unfold evaluate, constructor. cbn [interpolate].
    destruct Hw as [[-> _] | [-> _]]; reflexivity. }
  set (c := constructor scaleFrom scaleTo d) in *.
  assert (Hk : Math_floor (scaleFactor_ c * t) = k).
  { rewrite Hu. apply Math_floor_eq. lra. }
  rewrite Ev. rewrite sinc_is_sum by exact Hfs. cbv zeta. rewrite Hk, Hu.
  destruct (Hf k) as [p [Hp _]]. rewrite Hp.
  set (term := fun n : Z =>
                 num_mul (kernel_ c (IZR k - IZR n)) (getClippedInput_ c n samples)).
  destruct (fold_single_term term k p
              (int_range (k - sincFilterSize_ c + 1) (k + sincFilterSize_ c)))
    with (a := 0) as [v [Hv [Hin _]]].
  - apply NoDup_int_seq.
  - unfold term. rewrite Hker, Hp. cbn [num_mul num_lift2]. f_equal.
    replace (IZR k - IZR k) with 0 by ring. rewrite sinc_at_zero, Hw0. ring.
  - intros n Hn. unfold term. rewrite Hker.
    destruct (Hf n) as [q [Hq _]]. rewrite Hq. cbn [num_mul num_lift2]. f_equal.
    rewrite <- minus_IZR. rewrite sinc_at_integer by lia. ring.
  - unfold num_sum. rewrite Hv. f_equal. rewrite Hin; [ring |].
    apply In_int_range. change (sincFilterSize_ c)
      with (or_default_Z (details.sincFilterSize d) 1). lia.
Qed.

Lemma sinc_at_integer_coordinate_witness :
  evaluate (constructor 5 4 (sinc_details 2)) 3 [0; 10; 0; 10; 0] =
  getClippedInput_ (constructor 5 4 (sinc_details 2)) 3 [0; 10; 0; 10; 0] /\
  evaluate (constructor 5 4 (lanczos_details 3)) 3 [0; 10; 0; 10; 0] =
  getClippedInput_ (constructor 5 4 (lanczos_details 3)) 3 [0; 10; 0; 10; 0].
Proof.
  split.
  - apply (sinc_at_integer_coordinate 5 4 (sinc_details 2)
             [0; 10; 0; 10; 0] 3 3).
    + right. split; reflexivity.
    + cbn. lia.
    + split; [lia | left; lia].
    + reflexivity.
    + change (scaleFactor_ (constructor 5 4 (sinc_details 2)))
        with ((5 - 1) / 4). lra.
  - apply (sinc_at_integer_coordinate 5 4 (lanczos_details 3)
             [0; 10; 0; 10; 0] 3 3).
    + left. split; [reflexivity |]. exists 3%Z. split; [reflexivity | lia].
    + cbn. lia.
    + split; [lia | left; lia].
    + reflexivity.
    + change (scaleFactor_ (constructor 5 4 (lanczos_details 3)))
        with ((5 - 1) / 4). lra.
Defined.

(** * The sample that is read, with the coordinate rounded *)

(** ** Rounding to nearest *)

(** Exact arithmetic is one rounding of this kind. *)
Lemma exact_rounds_to_nearest : rounds_to_nearest (fun x : R => x).
Proof.
  assert (He : 0 < eps64) by (unfold eps64; apply Rinv_0_lt_compat; lra).
  split; [| split].
  - intros x y H. exact H.
  - intros z _. reflexivity.
  - intros x [Hx _].
    assert (Hpos : 0 < x).
    { apply Rlt_le_trans with (/ 1152921504606846976); [| exact Hx].
      apply Rinv_0_lt_compat. lra. }
    split; nra.
Qed.

Lemma eps64_range : 0 < eps64 /\ eps64 * 9007199254740992 = 1.
Proof. unfold eps64. split; [apply Rinv_0_lt_compat; lra | field]. Qed.

Lemma fl_rel_pos (fl : R -> R) (x : R) :
  rounds_to_nearest fl ->
  / 1152921504606846976 <= x <= 1606938044258990275541962092341162602522202993782792835301376 ->
  x * (1 - eps64) <= fl x <= x * (1 + eps64).
Proof. intros (_ & _ & Hrel). apply Hrel. Qed.

Lemma fl_zero (fl : R -> R) : rounds_to_nearest fl -> fl 0 = 0.
Proof. intros (_ & Hint & _). apply (Hint 0%Z). lia. Qed.

Lemma fl_nonneg (fl : R -> R) (x : R) :
  rounds_to_nearest fl -> 0 <= x -> 0 <= fl x.
Proof.
  intros Hfl Hx. rewrite <- (fl_zero fl Hfl). destruct Hfl as (Hmono & _).
  now apply Hmono.
Qed.

(** The rounded quotient [fl (s / m)] for integers [0 <= s], [1 <= m]
    up to [2^53]. *)
Lemma rounded_quotient (fl : R -> R) (s m : Z) :
  rounds_to_nearest fl ->
  (0 <= s <= 9007199254740992)%Z -> (1 <= m <= 9007199254740992)%Z ->
  IZR s / IZR m * (1 - eps64) <= fl (IZR s / IZR m) <= IZR s / IZR m * (1 + eps64).
Proof.
  intros Hfl Hs Hm.
  destruct (Z.eq_dec s 0) as [-> | Hs0].
  - replace (0 / IZR m) with 0 by (unfold Rdiv; ring).
    rewrite (fl_zero fl Hfl). lra.
  - apply fl_rel_pos; [exact Hfl |].
    assert (H1 : 1 <= IZR s) by (apply IZR_le; lia).
    assert (H2 : IZR s <= 9007199254740992) by (apply IZR_le; lia).
    assert (H3 : 1 <= IZR m) by (apply IZR_le; lia).
    assert (H4 : IZR m <= 9007199254740992) by (apply IZR_le; lia).
    assert (Hi : 0 < / IZR m) by (apply Rinv_0_lt_compat; lra).
    assert (Hi1 : / IZR m <= 1).
    { rewrite <- Rinv_1. apply Rinv_le_contravar; lra. }
    assert (Hi2 : / 9007199254740992 <= / IZR m).
    { apply Rinv_le_contravar; lra. }
    unfold Rdiv. split.
    + apply Rle_trans with (/ 9007199254740992); [lra |]. nra.
    + nra.
Qed.

Lemma rounded_coordinate_le (fl : R -> R) (s m : Z) (t : R) :
  rounds_to_nearest fl ->
  (0 <= s <= 9007199254740992)%Z -> (1 <= m <= 9007199254740992)%Z ->
  0 <= t <= IZR m * (1 - eps64) ->
  0 <= fl (fl (IZR s / IZR m) * t) <= IZR s.
Proof.
  intros Hfl Hs Hm Ht.
  pose proof (rounded_quotient fl s m Hfl Hs Hm) as Hq.
  destruct eps64_range as [He He1].
  assert (He2 : eps64 < 1) by nra.
  assert (H0 : 0 <= IZR s) by (apply IZR_le; lia).
  assert (H3 : 1 <= IZR m) by (apply IZR_le; lia).
  assert (Q : IZR s / IZR m * IZR m = IZR s) by (field; lra).
  assert (Hq0 : 0 <= IZR s / IZR m).
  { apply Rmult_le_pos; [exact H0 |]. left. apply Rinv_0_lt_compat. lra. }
  set (q := IZR s / IZR m) in *. set (a := fl q) in *.
  assert (Ha0 : 0 <= a) by nra.
  split.
  - apply fl_nonneg; [exact Hfl |]. nra.
  - destruct Hfl as (Hmono & Hint & _).
    rewrite <- (Hint s) by lia. apply Hmono.
    apply Rle_trans with (q * (1 + eps64) * (IZR m * (1 - eps64))).
    + apply Rmult_le_compat; nra.
    + replace (q * (1 + eps64) * (IZR m * (1 - eps64)))
        with (IZR s * (1 - eps64 * eps64)) by (rewrite <- Q; ring).
      nra.
Qed.

Lemma rounded_coordinate_lt (fl : R -> R) (s m : Z) (t : R) :
  rounds_to_nearest fl ->
  (1 <= s <= 9007199254740992)%Z -> (1 <= m <= 9007199254740992)%Z ->
  0 <= t <= IZR m * (1 - 3 * eps64) ->
  fl (fl (IZR s / IZR m) * t) < IZR s.
Proof.
  intros Hfl Hs Hm Ht.
  pose proof (rounded_quotient fl s m Hfl ltac:(lia) Hm) as Hq.
  destruct eps64_range as [He He1].
  assert (He2 : eps64 <= / 8) by nra.
  assert (H0 : 1 <= IZR s) by (apply IZR_le; lia).
  assert (H1 : IZR s <= 9007199254740992) by (apply IZR_le; lia).
  assert (H3 : 1 <= IZR m) by (apply IZR_le; lia).
  assert (Q : IZR s / IZR m * IZR m = IZR s) by (field; lra).
  assert (Hq0 : 0 < IZR s / IZR m).
  { apply Rmult_lt_0_compat; [lra |]. apply Rinv_0_lt_compat. lra. }
  set (q := IZR s / IZR m) in *. set (a := fl q) in *.
  assert (Ha0 : 0 <= a) by nra.
  assert (Hp : a * t <= IZR s * ((1 + eps64) * (1 - 3 * eps64))).
  { apply Rle_trans with (q * (1 + eps64) * (IZR m * (1 - 3 * eps64))).
    - apply Rmult_le_compat; nra.
    - rewrite <- Q. right. ring. }
  assert (Hp0 : 0 <= a * t) by nra.
  destruct (Rle_lt_dec (/ 1152921504606846976) (a * t)) as [Hbig | Hsmall].
  - destruct (fl_rel_pos fl (a * t) Hfl) as [_ Hup].
    { split; [exact Hbig |]. nra. }
    apply Rle_lt_trans with (a * t * (1 + eps64)); [exact Hup |].
    apply Rle_lt_trans
      with (IZR s * ((1 + eps64) * (1 - 3 * eps64)) * (1 + eps64)).
    + apply Rmult_le_compat_r; lra.
    + assert (Hc : (1 + eps64) * (1 - 3 * eps64) * (1 + eps64) < 1) by nra.
      nra.
  - destruct Hfl as (Hmono & Hint & Hrel).
    apply Rle_lt_trans with (fl (/ 1152921504606846976)).
    + apply Hmono. lra.
    + destruct (Hrel (/ 1152921504606846976)) as [_ Hup]; [lra |]. nra.
Qed.


(** The object with the rounded scale factor fetches as the exact one:
    [getClippedInput_] reads [length_] and [clip_] only. *)
Lemma getClippedInput_rounded (fl : R -> R) (scaleFrom scaleTo : Z)
    (d : details.t) (n : Z) (samples : list R) :
  getClippedInput_ (constructor_rounded fl scaleFrom scaleTo d) n samples =
  getClippedInput_ (constructor scaleFrom scaleTo d) n samples.
Proof. reflexivity. Qed.

Lemma scaleFactor_rounded (fl : R -> R) (scaleFrom scaleTo : Z) (d : details.t) :
  let c := constructor_rounded fl scaleFrom scaleTo d in
  (details.clip d = Some "periodic"%string ->
   scaleFactor_ c = fl (IZR scaleFrom / IZR scaleTo)) /\
  (details.clip d <> Some "periodic"%string ->
   scaleFactor_ c = fl (IZR (scaleFrom - 1) / IZR scaleTo)).
Proof.
  cbn. split.
  - intros ->. reflexivity.
  - intros H. apply is_str_false in H. rewrite H. now rewrite minus_IZR.
Qed.

(** ** Point interpolation between arrays of the same length *)




(** ** Linear interpolation with the clamp mapper *)

(** C10 (as stated) fails in binary64: for four samples resampled to
    fifteen and [t = 15 - 2^-49], a double of [[0, 15)], the division
    gives [0.2] rounded up and the product rounds to [3], so
    [k + 1 = 4] is the length of the array: the range test of
    [getClippedInput_] fails for it and the clamp mapper is called,
    giving index [3]. *)
Lemma linear_clamp_index_reaches_length :
  let t := SpecFloat.S754_finite false 8444249301319679 (-49) in
  let c := constructor 4 15 (with_method_clip "linear" "clamp") in
  SpecFloat.valid_binary 53 1024 t = true /\
  f64_leb (f64_of_Z 0) t = true /\
  f64_ltb t (f64_of_Z 15) = true /\
  linear_index64 (scaleFactor64 4 15 false) t = Some 3%Z /\
  ((0 <=? 3 + 1)%Z && (3 + 1 <? length_ c)%Z)%bool = false /\
  clip_ c (3 + 1)%Z (length_ c) = Some 3%Z.
Proof. vm_compute. repeat split. Qed.

(** The indices of [linear] for every double [t] of [[0, scaleTo)]:
    [k] is an index of the array, and [k + 1] is one or is the length. *)
Lemma linear_clamp_indices_rounded
    (fl : R -> R) (scaleFrom scaleTo : Z) (d : details.t) (t : R) :
  rounds_to_nearest fl ->
  details.clip d <> Some "periodic"%string ->
  (1 <= scaleFrom <= 9007199254740992)%Z ->
  (1 <= scaleTo <= 9007199254740992)%Z ->
  0 <= t <= IZR scaleTo * (1 - eps64) ->
  let k := linear_index_rounded fl (constructor_rounded fl scaleFrom scaleTo d) t in
  (0 <= k < scaleFrom)%Z /\ (0 < k + 1 <= scaleFrom)%Z.
Proof.
  intros Hfl Hper Hn Hm Ht k.
  destruct (scaleFactor_rounded fl scaleFrom scaleTo d) as [_ Hsf].
  specialize (Hsf Hper).
  pose proof (rounded_coordinate_le fl (scaleFrom - 1) scaleTo t Hfl
                ltac:(lia) Hm Ht) as [Hlo Hhi].
  unfold k, linear_index_rounded. rewrite Hsf.
  pose proof (Zfloor_bound (fl (fl (IZR (scaleFrom - 1) / IZR scaleTo) * t)))
    as [Hfl0 Hfl1].
  unfold Math_floor.
  set (z := Zfloor (fl (fl (IZR (scaleFrom - 1) / IZR scaleTo) * t))) in *.
  assert (H0 : (0 <= z)%Z).
  { unfold z. apply (Zfloor_lub 0). exact Hlo. }
  assert (H1 : (z <= scaleFrom - 1)%Z).
  { apply le_IZR. lra. }
  lia.
Qed.

(** C10 (as the code has it).  For [method = 'linear'] with the clamp
    mapper, lengths up to [2^53], [sourceLength >= 2] and every [t]
    with [0 <= t <= targetLength * (1 - 3 * 2^-53)], with the division
    and the product rounded to nearest, the indices
    [k = floor(scaleFactor * t)] and [k + 1] lie in
    [[0, sourceLength)]: the range test of [getClippedInput_] holds for
    both, and both samples are read without the mapper. *)
Theorem linear_clamp_reads_in_range_rounded
    (fl : R -> R) (scaleFrom scaleTo : Z) (d : details.t) (t : R) :
  rounds_to_nearest fl ->
  details.method d = Some "linear"%string ->
  clip_ (constructor scaleFrom scaleTo d) = clipClamp_ ->
  (2 <= scaleFrom <= 9007199254740992)%Z ->
  (1 <= scaleTo <= 9007199254740992)%Z ->
  0 <= t <= IZR scaleTo * (1 - 3 * eps64) ->
  let c := constructor_rounded fl scaleFrom scaleTo d in
  let k := linear_index_rounded fl c t in
  interpolate c = Mlinear /\
  (0 <= k < scaleFrom)%Z /\
  (0 <= k + 1 < scaleFrom)%Z /\
  ((0 <=? k)%Z && (k <? length_ c)%Z)%bool = true /\
  ((0 <=? k + 1)%Z && (k + 1 <? length_ c)%Z)%bool = true /\
  (forall samples : list R,
      getClippedInput_ c k samples = sample_at samples (Some k) /\
      getClippedInput_ c (k + 1)%Z samples = sample_at samples (Some (k + 1)%Z)).
Proof.
  intros Hfl Hm Hc Hn Hto Ht c k.
  assert (Hper : details.clip d <> Some "periodic"%string).
  { apply is_str_false. now apply (clamp_policy_not_periodic scaleFrom scaleTo). }
  destruct (scaleFactor_rounded fl scaleFrom scaleTo d) as [_ Hsf].
  specialize (Hsf Hper). fold c in Hsf.
  pose proof (rounded_coordinate_lt fl (scaleFrom - 1) scaleTo t Hfl
                ltac:(lia) Hto Ht) as Hlt.
  destruct eps64_range as [He He1].
  assert (Hto' : 1 <= IZR scaleTo) by (apply IZR_le; lia).
  assert (Ht' : 0 <= t <= IZR scaleTo * (1 - eps64)) by (split; nra).
  pose proof (rounded_coordinate_le fl (scaleFrom - 1) scaleTo t Hfl
                ltac:(lia) Hto Ht') as [Hlo _].
  assert (Hk : (0 <= k < scaleFrom - 1)%Z).
  { unfold k, linear_index_rounded, Math_floor. rewrite Hsf.
    pose proof (Zfloor_bound (fl (fl (IZR (scaleFrom - 1) / IZR scaleTo) * t)))
      as [Hf0 Hf1].
    split.
    - apply (Zfloor_lub 0). exact Hlo.
    - apply lt_IZR. lra. }
  assert (Hlen : length_ c = scaleFrom) by reflexivity.
  destruct (getClippedInput_in_range c k) with (samples := @nil R)
    as [G0 _]; [rewrite Hlen; lia |].
  destruct (getClippedInput_in_range c (k + 1)%Z) with (samples := @nil R)
    as [G1 _]; [rewrite Hlen; lia |].
  split.
  { unfold c, constructor_rounded, constructor. cbn [interpolate].
    rewrite Hm. reflexivity. }
  split; [lia |]. split; [lia |]. split; [exact G0 |]. split; [exact G1 |].
  intros samples. split; apply getClippedInput_in_range; rewrite Hlen; lia.
Qed.

Lemma linear_clamp_reads_in_range_rounded_witness :
  let c := constructor 5 10 (with_method_clip "linear" "clamp") in
  let k := Math_floor (scaleFactor_ c * 9) in
  (0 <= k < 5)%Z /\
  (0 <= k + 1 < 5)%Z /\
  (forall samples : list R,
      getClippedInput_ c k samples = sample_at samples (Some k) /\
      getClippedInput_ c (k + 1)%Z samples = sample_at samples (Some (k + 1)%Z)).
Proof.
  destruct (linear_clamp_reads_in_range_rounded (fun x : R => x) 5 10
              (with_method_clip "linear" "clamp") 9)
    as (_ & Hk & Hk1 & _ & _ & Hs).
  - exact exact_rounds_to_nearest.
  - reflexivity.
  - reflexivity.
  - lia.
  - lia.
  - unfold eps64. lra.
  - split; [exact Hk |]. split; [exact Hk1 | exact Hs].
Defined.

(** ** The index read by point and linear interpolation *)

(** X12.  For [method = 'point'], a mapper other than periodic,
    lengths up to [2^53] and every double [t] of [[0, scaleTo)]
    (that is [0 <= t <= scaleTo * (1 - 2^-53)]), with the division and
    the product rounded to nearest, the index
    [r = round(scaleFactor * t)] lies in [[0, scaleFrom)]: the value is
    [samples[r]], read without the mapper. *)
Theorem point_reads_in_range_rounded
    (fl : R -> R) (scaleFrom scaleTo : Z) (d : details.t)
    (samples : list R) (t : R) :
  rounds_to_nearest fl ->
  details.method d = Some "point"%string ->
  details.clip d <> Some "periodic"%string ->
  (1 <= scaleFrom <= 9007199254740992)%Z ->
  (1 <= scaleTo <= 9007199254740992)%Z ->
  0 <= t <= IZR scaleTo * (1 - eps64) ->
  let c := constructor_rounded fl scaleFrom scaleTo d in
  let r := point_index_rounded fl c t in
  interpolate c = Mpoint /\
  (0 <= r < scaleFrom)%Z /\
  ((0 <=? r)%Z && (r <? length_ c)%Z)%bool = true /\
  point_rounded fl c t samples = sample_at samples (Some r).
Proof.
  intros Hfl Hm Hper Hn Hto Ht c r.
  destruct (scaleFactor_rounded fl scaleFrom scaleTo d) as [_ Hsf].
  specialize (Hsf Hper). fold c in Hsf.
  pose proof (rounded_coordinate_le fl (scaleFrom - 1) scaleTo t Hfl
                ltac:(lia) Hto Ht) as [Hlo Hhi].
  assert (Hr : (0 <= r < scaleFrom)%Z).
  { unfold r, point_index_rounded, Math_round. rewrite Hsf.
    pose proof (Zfloor_bound
                  (fl (fl (IZR (scaleFrom - 1) / IZR scaleTo) * t) + 1 / 2))
      as [Hf0 Hf1].
    pose proof (minus_IZR scaleFrom 1) as E.
    split.
    - apply (Zfloor_lub 0). lra.
    - apply lt_IZR. lra. }
  assert (Hlen : length_ c = scaleFrom) by reflexivity.
  destruct (getClippedInput_in_range c r samples) as [G V];
    [rewrite Hlen; exact Hr |].
  split.
  { unfold c, constructor_rounded, constructor. cbn [interpolate].
    rewrite Hm. reflexivity. }
  split; [exact Hr |]. split; [exact G | exact V].
Qed.

Lemma point_reads_in_range_rounded_witness :
  let c := constructor 5 10 (with_method "point") in
  let r := Math_round (scaleFactor_ c * 9) in
  (0 <= r < 5)%Z /\
  point c 9 [0; 10; 0; 10; 0] = sample_at [0; 10; 0; 10; 0] (Some r).
Proof.
  destruct (point_reads_in_range_rounded (fun x : R => x) 5 10
              (with_method "point") [0; 10; 0; 10; 0] 9)
    as (_ & Hr & _ & Hv).
  - exact exact_rounds_to_nearest.
  - reflexivity.
  - discriminate.
  - lia.
  - lia.
  - unfold eps64. lra.
  - split; [exact Hr | exact Hv].
Defined.

(** The coordinate under the periodic scale factor stays in
    [[0, scaleFrom]]. *)
Lemma periodic_coordinate_rounded
    (fl : R -> R) (scaleFrom scaleTo : Z) (d : details.t) (t : R) :
  rounds_to_nearest fl ->
  details.clip d = Some "periodic"%string ->
  (1 <= scaleFrom <= 9007199254740992)%Z ->
  (1 <= scaleTo <= 9007199254740992)%Z ->
  0 <= t <= IZR scaleTo * (1 - eps64) ->
  let c := constructor_rounded fl scaleFrom scaleTo d in
  0 <= fl (scaleFactor_ c * t) <= IZR scaleFrom /\
  clip_ c = clipPeriodic_ /\
  mappable scaleFrom d.
Proof.
  intros Hfl Hc Hn Hto Ht c.
  destruct (scaleFactor_rounded fl scaleFrom scaleTo d) as [Hsf _].
  specialize (Hsf Hc). fold c in Hsf. rewrite Hsf.
  split; [apply rounded_coordinate_le; (assumption || lia) |].
  split.
  - unfold c, constructor_rounded, constructor. cbn [clip_]. rewrite Hc.
    reflexivity.
  - split; [lia |]. right. rewrite Hc. discriminate.
Qed.

(** X13.  For [method = 'linear'] with the periodic mapper, lengths up
    to [2^53] and every double [t] of [[0, scaleTo)], with the division
    and the product rounded to nearest, the index
    [k = floor(scaleFactor * t)] lies in [[0, scaleFrom]] and the two
    samples fetched are [samples[k mod scaleFrom]] and
    [samples[(k + 1) mod scaleFrom]]: the last sample is blended with
    the first, and where [k] reaches [scaleFrom] the first with the
    second. *)
Theorem linear_periodic_fetches_rounded
    (fl : R -> R) (scaleFrom scaleTo : Z) (d : details.t)
    (samples : list R) (t : R) :
  rounds_to_nearest fl ->
  details.method d = Some "linear"%string ->
  details.clip d = Some "periodic"%string ->
  (1 <= scaleFrom <= 9007199254740992)%Z ->
  (1 <= scaleTo <= 9007199254740992)%Z ->
  0 <= t <= IZR scaleTo * (1 - eps64) ->
  let c := constructor_rounded fl scaleFrom scaleTo d in
  let k := linear_index_rounded fl c t in
  interpolate c = Mlinear /\
  (0 <= k <= scaleFrom)%Z /\
  getClippedInput_ c k samples =
  sample_at samples (Some (k mod scaleFrom)%Z) /\
  getClippedInput_ c (k + 1)%Z samples =
  sample_at samples (Some ((k + 1) mod scaleFrom)%Z).
Proof.
  intros Hfl Hm Hc Hn Hto Ht c k.
  destruct (periodic_coordinate_rounded fl scaleFrom scaleTo d t
              Hfl Hc Hn Hto Ht) as ([Hlo Hhi] & Hclip & Hmap).
  fold c in Hlo, Hhi, Hclip.
  assert (Hk : (0 <= k <= scaleFrom)%Z).
  { unfold k, linear_index_rounded, Math_floor.
    pose proof (Zfloor_bound (fl (scaleFactor_ c * t))) as [Hf0 Hf1].
    split.
    - apply (Zfloor_lub 0). exact Hlo.
    - apply le_IZR. lra. }
  split.
  { unfold c, constructor_rounded, constructor. cbn [interpolate].
    rewrite Hm. reflexivity. }
  split; [exact Hk |].
  unfold c. rewrite !getClippedInput_rounded.
  rewrite !getClippedInput_via_mapper by exact Hmap.
  change (clip_ (constructor scaleFrom scaleTo d)) with (clip_ c).
  rewrite Hclip, !clipPeriodic_mod by lia. split; reflexivity.
Qed.

Lemma linear_periodic_fetches_rounded_witness :
  let c := constructor 5 10 (with_method_clip "linear" "periodic") in
  let k := Math_floor (scaleFactor_ c * 9) in
  (0 <= k <= 5)%Z /\
  getClippedInput_ c k [0; 10; 0; 10; 0] =
  sample_at [0; 10; 0; 10; 0] (Some (k mod 5)%Z) /\
  getClippedInput_ c (k + 1)%Z [0; 10; 0; 10; 0] =
  sample_at [0; 10; 0; 10; 0] (Some ((k + 1) mod 5)%Z).
Proof.
  destruct (linear_periodic_fetches_rounded (fun x : R => x) 5 10
              (with_method_clip "linear" "periodic") [0; 10; 0; 10; 0] 9)
    as (_ & Hk & H0 & H1).
  - exact exact_rounds_to_nearest.
  - reflexivity.
  - reflexivity.
  - lia.
  - lia.
  - unfold eps64. lra.
  - split; [exact Hk |]. split; [exact H0 | exact H1].
Defined.

(** X19.  For [method = 'point'] with the periodic mapper, lengths up
    to [2^53] and every double [t] of [[0, scaleTo)], with the division
    and the product rounded to nearest, the index
    [r = round(scaleFactor * t)] lies in [[0, scaleFrom]] and the value
    is [samples[r mod scaleFrom]]: where [r] reaches [scaleFrom], the
    value is the first sample. *)
Theorem point_periodic_wraps_rounded
    (fl : R -> R) (scaleFrom scaleTo : Z) (d : details.t)
    (samples : list R) (t : R) :
  rounds_to_nearest fl ->
  details.method d = Some "point"%string ->
  details.clip d = Some "periodic"%string ->
  (1 <= scaleFrom <= 9007199254740992)%Z ->
  (1 <= scaleTo <= 9007199254740992)%Z ->
  0 <= t <= IZR scaleTo * (1 - eps64) ->
  let c := constructor_rounded fl scaleFrom scaleTo d in
  let r := point_index_rounded fl c t in
  interpolate c = Mpoint /\
  (0 <= r <= scaleFrom)%Z /\
  point_rounded fl c t samples = sample_at samples (Some (r mod scaleFrom)%Z).
Proof.
  intros Hfl Hm Hc Hn Hto Ht c r.
  destruct (periodic_coordinate_rounded fl scaleFrom scaleTo d t
              Hfl Hc Hn Hto Ht) as ([Hlo Hhi] & Hclip & Hmap).
  fold c in Hlo, Hhi, Hclip.
  assert (Hr : (0 <= r <= scaleFrom)%Z).
  { unfold r, point_index_rounded, Math_round.
    pose proof (Zfloor_bound (fl (scaleFactor_ c * t) + 1 / 2)) as [Hf0 Hf1].
    split.
    - apply (Zfloor_lub 0). lra.
    - apply Z.lt_succ_r. apply lt_IZR. rewrite succ_IZR. lra. }
  split.
  { unfold c, constructor_rounded, constructor. cbn [interpolate].
    rewrite Hm. reflexivity. }
  split; [exact Hr |].
  unfold point_rounded. fold r. unfold c. rewrite getClippedInput_rounded.
  rewrite getClippedInput_via_mapper by exact Hmap.
  change (clip_ (constructor scaleFrom scaleTo d)) with (clip_ c).
  rewrite Hclip, clipPeriodic_mod by lia. reflexivity.
Qed.

Lemma point_periodic_wraps_rounded_witness :
  let c := constructor 5 10 (with_method_clip "point" "periodic") in
  let r := Math_round (scaleFactor_ c * 9) in
  (0 <= r <= 5)%Z /\
  point c 9 [0; 10; 0; 10; 0] = sample_at [0; 10; 0; 10; 0] (Some (r mod 5)%Z).
Proof.
  destruct (point_periodic_wraps_rounded (fun x : R => x) 5 10
              (with_method_clip "point" "periodic") [0; 10; 0; 10; 0] 9)
    as (_ & Hr & Hv).
  - exact exact_rounds_to_nearest.
  - reflexivity.
  - reflexivity.
  - lia.
  - lia.
  - unfold eps64. lra.
  - split; [exact Hr | exact Hv].
Defined.



(** ** Binary64 values of the index *)

(** The index the code computes in binary64 at inputs where it differs
    from the index of the exact coordinate: [point] over (16, 22) and
    over (15, 22, periodic) at [t = 11] reads index [7] (the exact
    coordinate [7.5] rounds to [8]); [linear] over (3, 15, periodic) at
    [t = 15 - 2^-49] has [k = 3], the length; and [point] over equal
    lengths [n = 82957787] at [t = 41478894] reads index [t], although
    [2 * t > n]. *)
Lemma binary64_index_examples :
  point_index64 (scaleFactor64 16 22 false) (f64_of_Z 11) = Some 7%Z /\
  point_index64 (scaleFactor64 15 22 true) (f64_of_Z 11) = Some 7%Z /\
  linear_index64 (scaleFactor64 3 15 true)
    (SpecFloat.S754_finite false 8444249301319679 (-49)) = Some 3%Z /\
  point_index64 (scaleFactor64 82957787 82957787 false) (f64_of_Z 41478894) =
  Some 41478894%Z /\
  point_index64 (scaleFactor64 4 4 false) (f64_of_Z 3) = Some 2%Z.
Proof. vm_compute. repeat split. Qed.
